(** * A shallow embedding of [app.py]: the retrieval-augmented answering pipeline

    The development follows the source file top to bottom: the Python
    built-ins the code relies on ([str.strip], [str.split], [str.join],
    [re.split], [range], slices), the chunker of [DocumentProcessor], the
    process-wide vector index and document store of [SemanticSearchService],
    and the retry loop of [LLMService].  Stateful code runs in a small
    state-and-exception monad in which, as in Python, the mutations made
    before an exception is raised stay visible after it. *)

From Stdlib Require Import Ascii String.
From Stdlib Require Import Arith Lia Bool ZArith QArith Lqa List Sorted.
Import ListNotations.

Set Implicit Arguments.
Local Open Scope nat_scope.
Local Open Scope list_scope.

(* ================================================================== *)
(** * Part I: definitions                                              *)
(* ================================================================== *)

(** ** Python text

    A [str] is a sequence of code points; the model keeps the code points
    below 256, one [ascii] each. *)

Definition text := list ascii.

Definition lit (s : string) : text := list_ascii_of_string s.

Module Py.

(** [str.isspace] on a single code point below 256: TAB..CR, FS..US,
    SPACE, NEL and NBSP.  It is the class used by [str.strip],
    [str.split] without argument and by [\s] in a [str] pattern. *)
Definition is_space (c : ascii) : bool :=
  let n := nat_of_ascii c in
  ((9 <=? n) && (n <=? 13)) || ((28 <=? n) && (n <=? 32))
  || (n =? 133) || (n =? 160).

Definition space : ascii := ascii_of_nat 32.
Definition newline : ascii := ascii_of_nat 10.

(** [s.replace('\n', ' ')] *)
Definition replace_newlines (s : text) : text :=
  map (fun c => if Ascii.eqb c newline then space else c) s.

Fixpoint lstrip (s : text) : text :=
  match s with
  | [] => []
  | c :: s' => if is_space c then lstrip s' else s
  end.

Definition rstrip (s : text) : text := rev (lstrip (rev s)).

(** [s.strip()] *)
Definition strip (s : text) : text := rstrip (lstrip s).

(** [s.split()]: the maximal runs of non-whitespace, in order.  [cur]
    holds the run being read, last character first. *)
Fixpoint split_go (cur : text) (s : text) : list text :=
  match s with
  | [] => match cur with [] => [] | _ => [rev cur] end
  | c :: s' =>
      if is_space c
      then match cur with
           | [] => split_go [] s'
           | _ => rev cur :: split_go [] s'
           end
      else split_go (c :: cur) s'
  end.

Definition split (s : text) : list text := split_go [] s.

(** [sep.join(parts)] *)
Fixpoint join (sep : text) (parts : list text) : text :=
  match parts with
  | [] => []
  | [p] => p
  | p :: rest => p ++ sep ++ join sep rest
  end.

Fixpoint starts_with (p s : text) : bool :=
  match p, s with
  | [], _ => true
  | _ :: _, [] => false
  | a :: p', b :: s' => Ascii.eqb a b && starts_with p' s'
  end.

(** [needle in haystack] *)
Fixpoint contains (needle haystack : text) : bool :=
  starts_with needle haystack ||
  match haystack with
  | [] => false
  | _ :: h' => contains needle h'
  end.

(** [range(0, stop, step)] for a positive [step] *)
Definition range0 (stop step : nat) : list nat :=
  map (fun k => k * step) (seq 0 ((stop + step - 1) / step)).

(** [xs[i:j]] for [0 <= i <= j] *)
Definition slice {A} (xs : list A) (i j : nat) : list A :=
  firstn (j - i) (skipn i xs).

(** ** [re.split(r'(?<=[.!?])\s+', s)]

    A match is a maximal whitespace run whose first character comes
    right after one of [.], [!], [?].  The preceding character of any
    later position of the run is whitespace, so a run that does not
    start after such a mark holds no match at all. *)
Definition is_sentence_end (c : ascii) : bool :=
  let n := nat_of_ascii c in (n =? 46) || (n =? 33) || (n =? 63).

(** [after_mark]: the previous character is a sentence mark;
    [in_sep]: the previous character belongs to a match being consumed;
    [cur]: the piece being read, last character first. *)
Fixpoint sentence_split_go (after_mark in_sep : bool) (cur : text)
         (s : text) : list text :=
  match s with
  | [] => [rev cur]
  | c :: s' =>
      if is_space c then
        if in_sep then sentence_split_go false true cur s'
        else if after_mark then rev cur :: sentence_split_go false true [] s'
        else sentence_split_go false false (c :: cur) s'
      else sentence_split_go (is_sentence_end c) false (c :: cur) s'
  end.

Definition sentence_split (s : text) : list text :=
  sentence_split_go false false [] s.

End Py.

(** ** Data models *)

(** A value of a [Dict[str, Any]] as the program builds them. *)
Inductive value : Type :=
| VInt (n : Z)
| VStr (s : text).

(** A [dict] with [str] keys, in insertion order. *)
Definition dict := list (text * value).

Definition text_eqb (a b : text) : bool :=
  if list_eq_dec Ascii.ascii_dec a b then true else false.

Fixpoint dict_get (d : dict) (k : text) : option value :=
  match d with
  | [] => None
  | (k', v) :: d' => if text_eqb k k' then Some v else dict_get d' k
  end.

(** [d[k] = v]: an existing key keeps its place and takes the new value. *)
Fixpoint dict_set (d : dict) (k : text) (v : value) : dict :=
  match d with
  | [] => [(k, v)]
  | (k', v') :: d' =>
      if text_eqb k k' then (k', v) :: d' else (k', v') :: dict_set d' k v
  end.

(** [{**d, **extra}] *)
Definition dict_update (d extra : dict) : dict :=
  fold_left (fun acc kv => dict_set acc (fst kv) (snd kv)) extra d.

Record DocumentChunk : Type := mkDocumentChunk {
  content : text;
  metadata : dict
}.

Record ClauseMatch : Type := mkClauseMatch {
  match_content : text;
  similarity_score : Q
}.

(** ** DocumentProcessor *)

Record DocumentProcessor : Type := mkDocumentProcessor {
  chunk_size : nat
}.

(** [DocumentProcessor.__init__] *)
Definition doc_processor : DocumentProcessor :=
  {| chunk_size := 256 |}.

(** [DocumentChunk(content=" ".join(current), metadata={"chunk_id": len(chunks), **metadata})] *)
Definition close_chunk (chunks : list DocumentChunk) (current : list text)
           (meta : dict) : DocumentChunk :=
  {| content := Py.join [Py.space] current;
     metadata :=
       dict_update [(lit "chunk_id", VInt (Z.of_nat (length chunks)))] meta |}.

(** The body of [for sentence in sentences], on the loop's three
    variables [chunks], [current_chunk_sentences], [current_chunk_length]. *)
Fixpoint chunking_loop (self : DocumentProcessor) (meta : dict)
         (sentences : list text)
         (chunks : list DocumentChunk) (current : list text)
         (current_length : nat)
  : list DocumentChunk * list text * nat :=
  match sentences with
  | [] => (chunks, current, current_length)
  | sentence :: rest =>
      let sentence_length := length (Py.split sentence) in
      if current_length + sentence_length <=? chunk_size self
      then chunking_loop self meta rest chunks (current ++ [sentence])
                         (current_length + sentence_length)
      else chunking_loop self meta rest
                         (chunks ++ [close_chunk chunks current meta])
                         [sentence] sentence_length
  end.

(** The second line of [sentence_aware_chunking]: the pieces that are
    kept, trimmed. *)
Definition kept_sentences (txt : text) : list text :=
  map Py.strip
      (filter (fun s => 10 <? length (Py.strip s))
              (Py.sentence_split (Py.replace_newlines txt))).

Definition sentence_aware_chunking (self : DocumentProcessor) (txt : text)
           (meta : dict) : list DocumentChunk :=
  let sentences := kept_sentences txt in
  let '(chunks, current, _) :=
    chunking_loop self meta sentences [] [] 0 in
  match current with
  | [] => chunks
  | _ => chunks ++ [close_chunk chunks current meta]
  end.

(** The same loop keeping, for each chunk, the list of sentences it was
    joined from instead of the joined string. *)
Fixpoint grouping_loop (self : DocumentProcessor) (sentences : list text)
         (groups : list (list text)) (current : list text)
         (current_length : nat)
  : list (list text) * list text * nat :=
  match sentences with
  | [] => (groups, current, current_length)
  | sentence :: rest =>
      let sentence_length := length (Py.split sentence) in
      if current_length + sentence_length <=? chunk_size self
      then grouping_loop self rest groups (current ++ [sentence])
                         (current_length + sentence_length)
      else grouping_loop self rest (groups ++ [current])
                         [sentence] sentence_length
  end.

Definition sentence_groups (self : DocumentProcessor) (txt : text)
  : list (list text) :=
  let '(groups, current, _) :=
    grouping_loop self (kept_sentences txt) [] [] 0 in
  match current with
  | [] => groups
  | _ => groups ++ [current]
  end.

Definition word_count (s : text) : nat := length (Py.split s).

Definition words_total (g : list text) : nat :=
  list_sum (map word_count g).

(** A group is within budget, or holds at most one sentence. *)
Definition within_budget (self : DocumentProcessor) (g : list text) : Prop :=
  length g <= 1 \/ words_total g <= chunk_size self.

Definition chunk_id (c : DocumentChunk) : option value :=
  dict_get (metadata c) (lit "chunk_id").

(** ** Exceptions, external capabilities and the process state *)

(** A raised exception, kept as its [str(e)]. *)
Inductive exn : Type :=
| Exn (message : text).

Definition str_of_exn (e : exn) : text :=
  match e with Exn m => m end.

Inductive result (A : Type) : Type :=
| Ok (a : A)
| Raise (e : exn).

Arguments Ok {A} a.
Arguments Raise {A} e.

(** What the program consumes as opaque capabilities: the sentence
    embedding model with its vector space, the generative model and the
    random number generator.

    - [encode texts] is [model.encode(texts, normalize_embeddings=True)],
      one row per text on success;
    - [l2_distance] is the metric of [faiss.IndexFlatL2];
    - [generate_content k prompt] is the outcome of the [k]-th call (counted
      from 0 over the life of the process) of
      [generate_content_async(prompt, ...)] followed by [response.text];
    - [uniform k] is the [k]-th draw of [np.random.uniform(0, 1)]. *)
Class Capabilities : Type := {
  Vec : Type;
  l2_distance : Vec -> Vec -> Q;
  encode : list text -> result (list Vec);
  generate_content : nat -> text -> result text;
  uniform : nat -> Q
}.

(** What the process does that the outside can observe: a call of the
    generative model, a sleep of so many seconds. *)
Inductive event : Type :=
| Called
| Slept (seconds : Q).

(** [{"content": c.content, "metadata": c.metadata}] *)
Record StoreEntry : Type := mkStoreEntry {
  entry_content : text;
  entry_metadata : dict
}.

Section Program.

Context {cap : Capabilities}.

(** The module-level globals [FAISS_INDEX] (its rows), [DOCUMENT_STORE]
    and [EMBEDDING_MODEL] (loaded or not), and what the process has done
    to the outside: model calls made, random draws taken, and the log of
    the calls and sleeps in the order they happened. *)
Record World : Type := mkWorld {
  faiss_index : list Vec;
  document_store : list StoreEntry;
  embedding_model_loaded : bool;
  llm_calls : nat;
  rng_draws : nat;
  log : list event
}.

(** The state at import time. *)
Definition initial_world : World :=
  {| faiss_index := []; document_store := [];
     embedding_model_loaded := false;
     llm_calls := 0; rng_draws := 0; log := [] |}.

(** A computation: it reads and updates the process state and either
    returns or raises; the state reached is kept in both cases. *)
Definition M (A : Type) : Type := World -> result A * World.

Definition ret {A} (a : A) : M A := fun w => (Ok a, w).

Definition raise {A} (e : exn) : M A := fun w => (Raise e, w).

Definition bind {A B} (c : M A) (k : A -> M B) : M B :=
  fun w =>
    match c w with
    | (Ok a, w') => k a w'
    | (Raise e, w') => (Raise e, w')
    end.

(** [try: c  except Exception as e: handler e] *)
Definition try_except {A} (c : M A) (handler : exn -> M A) : M A :=
  fun w =>
    match c w with
    | (Ok a, w') => (Ok a, w')
    | (Raise e, w') => handler e w'
    end.

Definition lift_result {A} (r : result A) : M A := fun w => (r, w).

Definition get_world : M World := fun w => (Ok w, w).

Definition modify (f : World -> World) : M unit := fun w => (Ok tt, f w).

End Program.

Declare Scope monad_scope.
Delimit Scope monad_scope with monad.
Notation "x <- c ;; k" := (bind c (fun x => k))
  (at level 61, c at next level, right associativity) : monad_scope.
Notation "c ;; k" := (bind c (fun _ => k))
  (at level 61, right associativity) : monad_scope.

Section Services.

Context {cap : Capabilities}.
Local Open Scope monad_scope.

(** [for x in xs: body x] *)
Fixpoint for_each {A} (xs : list A) (body : A -> M unit) : M unit :=
  match xs with
  | [] => ret tt
  | x :: rest => body x ;; for_each rest body
  end.

(** A [for] loop whose body may [return]: [Some b] leaves the loop
    with [b], [None] goes on to the next element. *)
Fixpoint for_return {A B} (xs : list A) (body : A -> M (option B))
  : M (option B) :=
  match xs with
  | [] => ret None
  | x :: rest =>
      r <- body x ;;
      match r with
      | Some b => ret (Some b)
      | None => for_return rest body
      end
  end.

(** *** [get_embedding_model] *)
Definition get_embedding_model : M unit :=
  modify (fun w =>
    {| faiss_index := faiss_index w;
       document_store := document_store w;
       embedding_model_loaded := true;
       llm_calls := llm_calls w;
       rng_draws := rng_draws w;
       log := log w |}).

(** [model.encode(texts, normalize_embeddings=True)] *)
Definition model_encode (texts : list text) : M (list Vec) :=
  lift_result (encode texts).

(** *** The [faiss.IndexFlatL2] object bound to [FAISS_INDEX] *)

Definition set_faiss_index (rows : list Vec) (w : World) : World :=
  {| faiss_index := rows;
     document_store := document_store w;
     embedding_model_loaded := embedding_model_loaded w;
     llm_calls := llm_calls w;
     rng_draws := rng_draws w;
     log := log w |}.

Definition set_document_store (entries : list StoreEntry) (w : World)
  : World :=
  {| faiss_index := faiss_index w;
     document_store := entries;
     embedding_model_loaded := embedding_model_loaded w;
     llm_calls := llm_calls w;
     rng_draws := rng_draws w;
     log := log w |}.

(** [index.reset()] *)
Definition faiss_reset : M unit := modify (set_faiss_index []).

(** [index.add(rows)] *)
Definition faiss_add (rows : list Vec) : M unit :=
  modify (fun w => set_faiss_index (faiss_index w ++ rows) w).

(** [index.ntotal] *)
Definition ntotal (w : World) : nat := length (faiss_index w).

(** [DOCUMENT_STORE.clear()] *)
Definition store_clear : M unit := modify (set_document_store []).

(** [DOCUMENT_STORE.extend(entries)] *)
Definition store_extend (entries : list StoreEntry) : M unit :=
  modify (fun w => set_document_store (document_store w ++ entries) w).

(** The largest [float32], the distance [IndexFlatL2.search] reports
    next to the label [-1]. *)
Definition FLT_MAX : Q :=
  inject_Z 340282346638528859811704183484516925440.

Fixpoint insert_by_distance (p : Q * Z) (l : list (Q * Z))
  : list (Q * Z) :=
  match l with
  | [] => [p]
  | p' :: l' =>
      if Qle_bool (fst p) (fst p') then p :: l
      else p' :: insert_by_distance p l'
  end.

Definition sort_by_distance (l : list (Q * Z)) : list (Q * Z) :=
  fold_right insert_by_distance [] l.

(** One row of [index.search(x, k)] for an [IndexFlatL2]: exhaustive
    search, the [k] smallest distances in increasing order with the
    positions of their rows; when the index holds fewer than [k] rows
    the tail is filled with the label [-1]. *)
Definition IndexFlatL2_search_row (rows : list Vec) (x : Vec) (k : nat)
  : list (Q * Z) :=
  let scored :=
    combine (map (l2_distance x) rows)
            (map Z.of_nat (seq 0 (length rows))) in
  let best := firstn k (sort_by_distance scored) in
  best ++ repeat (FLT_MAX, (-1)%Z) (k - length best).

(** [index.search(xs, k)]: the matrices [distances] and [indices], one
    row per query row; the wrapper asserts [k > 0]. *)
Definition faiss_search (xs : list Vec) (k : nat)
  : M (list (list Q) * list (list Z)) :=
  match k with
  | 0 => raise (Exn (lit "AssertionError"))
  | _ =>
      w <- get_world ;;
      let found := map (fun x => IndexFlatL2_search_row (faiss_index w) x k) xs in
      ret (map (map fst) found, map (map snd) found)
  end.

(** [xs[i]] for a Python integer [i]: a negative [i] counts from the
    end, an [i] out of range raises [IndexError]. *)
Definition py_getitem {A} (xs : list A) (i : Z) : result A :=
  let n := Z.of_nat (length xs) in
  let j := if (i <? 0)%Z then (i + n)%Z else i in
  if (j <? 0)%Z then Raise (Exn (lit "list index out of range"))
  else match nth_error xs (Z.to_nat j) with
       | Some a => Ok a
       | None => Raise (Exn (lit "list index out of range"))
       end.

(** *** SemanticSearchService

    [self.faiss_index] and [self.document_store] are the two globals
    themselves, so the methods act on the process state directly. *)

Definition store_entry_of (c : DocumentChunk) : StoreEntry :=
  {| entry_content := content c; entry_metadata := metadata c |}.

(** One turn of the loop of [embed_and_index], for the start [i]. *)
Definition index_batch (chunks : list DocumentChunk) (batch_size : nat)
           (i : nat) : M unit :=
  let batch_chunks := Py.slice chunks i (i + batch_size) in
  let batch_texts := map content batch_chunks in
  embeddings <- model_encode batch_texts ;;
  faiss_add embeddings ;;
  store_extend (map store_entry_of batch_chunks).

(** [range(0, n, step)], which raises [ValueError] on a zero step. *)
Definition py_range0 (n step : nat) : M (list nat) :=
  match step with
  | 0 => raise (Exn (lit "range() arg 3 must not be zero"))
  | _ => ret (Py.range0 n step)
  end.

Definition embed_and_index (chunks : list DocumentChunk)
           (batch_size : nat) : M unit :=
  match chunks with
  | [] => ret tt
  | _ =>
      faiss_reset ;;
      store_clear ;;
      get_embedding_model ;;
      starts <- py_range0 (length chunks) batch_size ;;
      for_each starts (index_batch chunks batch_size)
  end.

(** The default [batch_size]. *)
Definition default_batch_size : nat := 8.

(** The comprehension of [search]:
    [[ClauseMatch(content=store[idx]["content"], similarity_score=float(dist))
      for dist, idx in zip(distances[0], indices[0]) if idx != -1]] *)
Fixpoint collect_matches (store : list StoreEntry) (pairs : list (Q * Z))
  : result (list ClauseMatch) :=
  match pairs with
  | [] => Ok []
  | (dist, idx) :: rest =>
      if (idx =? -1)%Z then collect_matches store rest
      else
        match py_getitem store idx with
        | Raise e => Raise e
        | Ok entry =>
            match collect_matches store rest with
            | Raise e => Raise e
            | Ok ms =>
                Ok ({| match_content := entry_content entry;
                       similarity_score := dist |} :: ms)
            end
        end
  end.

Definition search (query : text) (top_k : nat) : M (list ClauseMatch) :=
  w <- get_world ;;
  if ntotal w =? 0 then ret []
  else
    get_embedding_model ;;
    query_embedding <- model_encode [query] ;;
    found <- faiss_search query_embedding (Nat.min top_k (ntotal w)) ;;
    let '(distances, indices) := found in
    distances0 <- lift_result (py_getitem distances 0%Z) ;;
    indices0 <- lift_result (py_getitem indices 0%Z) ;;
    w' <- get_world ;;
    lift_result
      (collect_matches (document_store w') (combine distances0 indices0)).

(** *** LLMService *)

Definition nl : text := [Py.newline].
Definition dquote : text := [ascii_of_nat 34].

Definition create_high_accuracy_prompt (query : text)
           (relevant_chunks : list ClauseMatch) : text :=
  let context :=
    Py.join (nl ++ nl ++ lit "---" ++ nl ++ nl)
            (map match_content relevant_chunks) in
  lit "**Role:** You are an expert document analyst. Your task is to answer a question with extreme precision based *only* on the provided text." ++ nl ++
  lit "**Source Text:**" ++ nl ++ lit "---" ++ nl ++ context ++ nl ++ lit "---" ++ nl ++ nl ++
  lit "**Instructions:**" ++ nl ++
  lit "1. Analyze the entire source text to find all facts, figures, and conditions related to the user's question." ++ nl ++
  lit "2. Synthesize these facts into a single, comprehensive, and factual sentence." ++ nl ++
  lit "3. Your answer **MUST** be a single sentence." ++ nl ++
  lit "4. Do **NOT** add any information that is not explicitly stated in the source text." ++ nl ++
  lit "5. Answer directly. Do not start with phrases like " ++ dquote ++ lit "According to the document..." ++ dquote ++ lit "." ++ nl ++
  lit "**User Question:** " ++ query ++ nl ++
  lit "**Single-Sentence Answer:**".

Definition NO_INFORMATION : text :=
  lit "The provided document does not contain information relevant to this question.".

Definition ERROR_OCCURRED : text :=
  lit "An error occurred while generating the answer.".

Definition RETRIES_FAILED : text :=
  lit "Failed to generate an answer after multiple retries.".

(** [await self.model.generate_content_async(prompt, ...)] then
    [response.text]: the next outcome of the generative model. *)
Definition generate_content_async (prompt : text) : M text :=
  fun w =>
    (generate_content (llm_calls w) prompt,
     {| faiss_index := faiss_index w;
        document_store := document_store w;
        embedding_model_loaded := embedding_model_loaded w;
        llm_calls := S (llm_calls w);
        rng_draws := rng_draws w;
        log := log w ++ [Called] |}).

(** [np.random.uniform(0, 1)] *)
Definition random_uniform : M Q :=
  fun w =>
    (Ok (uniform (rng_draws w)),
     {| faiss_index := faiss_index w;
        document_store := document_store w;
        embedding_model_loaded := embedding_model_loaded w;
        llm_calls := llm_calls w;
        rng_draws := S (rng_draws w);
        log := log w |}).

(** [await asyncio.sleep(seconds)] *)
Definition sleep (seconds : Q) : M unit :=
  modify (fun w =>
    {| faiss_index := faiss_index w;
       document_store := document_store w;
       embedding_model_loaded := embedding_model_loaded w;
       llm_calls := llm_calls w;
       rng_draws := rng_draws w;
       log := log w ++ [Slept seconds] |}).

(** [' '.join(text.strip().replace('\n', ' ').split())] *)
Definition single_line (response_text : text) : text :=
  Py.join [Py.space]
          (Py.split (Py.replace_newlines (Py.strip response_text))).

(** The body of [for attempt in range(3)]. *)
Definition attempt_once (prompt : text) (attempt : nat) : M (option text) :=
  try_except
    (response_text <- generate_content_async prompt ;;
     ret (Some (single_line response_text)))
    (fun e =>
       if Py.contains (lit "429") (str_of_exn e) && (attempt <? 2)
       then
         jitter <- random_uniform ;;
         let wait_time := (inject_Z (2 ^ Z.of_nat attempt) + jitter)%Q in
         sleep wait_time ;;
         ret None
       else ret (Some ERROR_OCCURRED)).

Definition generate_answer (query : text)
           (relevant_chunks : list ClauseMatch) : M text :=
  match relevant_chunks with
  | [] => ret NO_INFORMATION
  | _ =>
      let prompt := create_high_accuracy_prompt query relevant_chunks in
      r <- for_return (seq 0 3) (attempt_once prompt) ;;
      match r with
      | Some answer => ret answer
      | None => ret RETRIES_FAILED
      end
  end.

Definition _process_one (query : text) : M text :=
  relevant_chunks <- search query 8 ;;
  generate_answer query relevant_chunks.

(** The loop of [process_all_queries], on its variable [answers]. *)
Fixpoint process_loop (queries : list text) (answers : list text)
  : M (list text) :=
  match queries with
  | [] => ret answers
  | query :: rest =>
      answer <- _process_one query ;;
      process_loop rest (answers ++ [answer])
  end.

Definition process_all_queries (queries : list text) : M (list text) :=
  process_loop queries [].

(** *** The pipeline of [run_submission] from the extracted text on

    Steps 2 to 4 inside the handler's [try]; any exception becomes an
    [HTTPException] with status 500 carrying the original message. *)
Definition run_pipeline (source : text) (txt : text)
           (questions : list text) : M (list text) :=
  try_except
    (let chunks :=
       sentence_aware_chunking doc_processor txt
                               [(lit "source", VStr source)] in
     embed_and_index chunks default_batch_size ;;
     process_all_queries questions)
    (fun e =>
       raise (Exn (lit "500: An internal processing error occurred: "
                   ++ str_of_exn e))).

End Services.

(** ** Derived notions used in the statements *)

Section Invariants.

Context {cap : Capabilities}.

(** [v] is a row the embedding model returned for the text [t]: some
    call of [encode] had [t] at a position and gave [v] at that same
    position. *)
Definition embedding_of (v : Vec) (t : text) : Prop :=
  exists texts rows j,
    encode texts = Ok rows /\
    nth_error rows j = Some v /\
    nth_error texts j = Some t.

(** Position by position, the row of the index is an embedding of the
    content of the entry of the document store. *)
Definition aligned (w : World) : Prop :=
  Forall2 (fun v d => embedding_of v (entry_content d))
          (faiss_index w) (document_store w).

(** The states the process can be in: the one at import time, and those
    left by a call of one of the two operations of a request, whether it
    returned or raised. *)
Inductive reachable : World -> Prop :=
| reachable_initial : reachable initial_world
| reachable_index w chunks batch_size :
    reachable w ->
    reachable (snd (embed_and_index chunks batch_size w))
| reachable_queries w queries :
    reachable w ->
    reachable (snd (process_all_queries queries w)).

(** [w] with the index rows and the store entries replaced. *)
Definition with_index (rows : list Vec) (entries : list StoreEntry)
           (w : World) : World :=
  {| faiss_index := rows;
     document_store := entries;
     embedding_model_loaded := embedding_model_loaded w;
     llm_calls := llm_calls w;
     rng_draws := rng_draws w;
     log := log w |}.

(** The sleeps performed, in seconds, in order. *)
Definition slept (w : World) : list Q :=
  flat_map (fun ev => match ev with Slept s => [s] | Called => [] end)
           (log w).

(** [w] after one more call of the generative model. *)
Definition after_call (w : World) : World :=
  {| faiss_index := faiss_index w;
     document_store := document_store w;
     embedding_model_loaded := embedding_model_loaded w;
     llm_calls := S (llm_calls w);
     rng_draws := rng_draws w;
     log := log w ++ [Called] |}.

(** The wait before the retry that follows attempt [attempt], with the
    next random draw as jitter. *)
Definition wait_time (attempt : nat) (w : World) : Q :=
  (inject_Z (2 ^ Z.of_nat attempt) + uniform (rng_draws w))%Q.

(** [w] after a call that was rate-limited at attempt [attempt] and the
    sleep that follows it. *)
Definition after_backoff (attempt : nat) (w : World) : World :=
  {| faiss_index := faiss_index w;
     document_store := document_store w;
     embedding_model_loaded := embedding_model_loaded w;
     llm_calls := S (llm_calls w);
     rng_draws := S (rng_draws w);
     log := log w ++ [Called; Slept (wait_time attempt w)] |}.

(** The state after [a] rate-limited attempts, each followed by its
    sleep. *)
Definition backed_off (a : nat) (w : World) : World :=
  match a with
  | 0 => w
  | 1 => after_backoff 0 w
  | _ => after_backoff 1 (after_backoff 0 w)
  end.

(** [w] once the embedding model has been loaded. *)
Definition loaded (w : World) : World := snd (get_embedding_model w).

(** The texts of the batch that starts at [i]. *)
Definition batch_texts_at (chunks : list DocumentChunk) (batch_size i : nat)
  : list text :=
  map content (Py.slice chunks i (i + batch_size)).

(** The encoder answers [rows] for the batch that starts at [i]. *)
Definition batch_encoded (chunks : list DocumentChunk) (batch_size : nat)
           (i : nat) (rows : list Vec) : Prop :=
  encode (batch_texts_at chunks batch_size i) = Ok rows.

(** The starts of the first [k] batches. *)
Definition batch_starts (batch_size k : nat) : list nat :=
  map (fun j => j * batch_size) (seq 0 k).

(** The two worlds hold the same index and the same document store. *)
Definition same_index (w w' : World) : Prop :=
  faiss_index w' = faiss_index w /\ document_store w' = document_store w.

(** A computation that leaves the index and the document store as they
    are, whatever its outcome. *)
Definition preserves_index {A} (c : M A) : Prop :=
  forall w, same_index w (snd (c w)).

(** The query can be embedded, or the index is empty and the query is
    never embedded. *)
Definition retrievable (w : World) (query : text) : Prop :=
  ntotal w = 0 \/ exists qv more, encode [query] = Ok (qv :: more).

Definition is_rate_limit (r : result text) : Prop :=
  exists e, r = Raise e /\ Py.contains (lit "429") (str_of_exn e) = true.

Definition is_other_error (r : result text) : Prop :=
  exists e, r = Raise e /\ Py.contains (lit "429") (str_of_exn e) = false.

End Invariants.

Fixpoint Qsum (l : list Q) : Q :=
  match l with
  | [] => 0%Q
  | x :: l' => (x + Qsum l')%Q
  end.

(** The entry a valid label designates. *)
Definition entry_at (store : list StoreEntry) (idx : Z) : StoreEntry :=
  nth (Z.to_nat idx) store {| entry_content := []; entry_metadata := [] |}.

Definition match_of (store : list StoreEntry) (p : Q * Z) : ClauseMatch :=
  {| match_content := entry_content (entry_at store (snd p));
     similarity_score := fst p |}.

Definition not_sentinel (p : Q * Z) : bool := negb (snd p =? -1)%Z.

(** The order of [IndexFlatL2.search] on its (distance, label) pairs. *)
Definition closer (p q : Q * Z) : Prop := (fst p <= fst q)%Q.

(** A label is the sentinel or designates an entry of the store. *)
Definition label_ok (n : nat) (p : Q * Z) : Prop :=
  (snd p = -1 \/ 0 <= snd p < Z.of_nat n)%Z.

(** ** Concrete capabilities for running the model

    Vectors are single rationals, the embedding of a text is its length,
    and [encode] raises on a batch holding a text that contains [<bad>].
    The generative model is a parameter. *)

Definition toy_encode (texts : list text) : result (list Q) :=
  if existsb (Py.contains (lit "<bad>")) texts
  then Raise (Exn (lit "encoder failure"))
  else Ok (map (fun t => inject_Z (Z.of_nat (length t))) texts).

Definition toy (llm : nat -> text -> result text) : Capabilities :=
  {| Vec := Q;
     l2_distance := fun a b => ((a - b) * (a - b))%Q;
     encode := toy_encode;
     generate_content := llm;
     uniform := fun _ => (1 # 2)%Q |}.

Definition always_rate_limited : nat -> text -> result text :=
  fun _ _ => Raise (Exn (lit "429 Resource has been exhausted")).

Definition always_unavailable : nat -> text -> result text :=
  fun _ _ => Raise (Exn (lit "503 Service Unavailable")).

(** The second call fails for good, every other call answers. *)
Definition second_call_fails : nat -> text -> result text :=
  fun k _ =>
    if k =? 1 then Raise (Exn (lit "500 Internal error"))
    else Ok (lit "  It lasts" ++ [Py.newline] ++ lit "2 years. ").

Definition plain_chunk (s : string) (n : Z) : DocumentChunk :=
  {| content := lit s; metadata := [(lit "chunk_id", VInt n)] |}.

Definition nine_chunks : list DocumentChunk :=
  [ plain_chunk "a" 0; plain_chunk "bb" 1; plain_chunk "ccc" 2;
    plain_chunk "dddd" 3; plain_chunk "eeeee" 4; plain_chunk "ffffff" 5;
    plain_chunk "ggggggg" 6; plain_chunk "hhhhhhhh" 7;
    plain_chunk "<bad> page" 8 ].

(** Ten chunks the toy encoder accepts: two batches of the default size,
    of 8 and of 2 chunks. *)
Definition ten_chunks : list DocumentChunk :=
  [ plain_chunk "a" 0; plain_chunk "bb" 1; plain_chunk "ccc" 2;
    plain_chunk "dddd" 3; plain_chunk "eeeee" 4; plain_chunk "ffffff" 5;
    plain_chunk "ggggggg" 6; plain_chunk "hhhhhhhh" 7;
    plain_chunk "iiiiiiiii" 8; plain_chunk "jjjjjjjjjj" 9 ].

Definition three_chunks : list DocumentChunk :=
  [ plain_chunk "a" 0; plain_chunk "bbbbb" 1; plain_chunk "ccc" 2 ].

(** A sentence of 300 words followed by a short one. *)
Definition long_sentence : text :=
  concat (repeat (lit "word ") 299) ++ lit "word.".

Definition long_text : text :=
  long_sentence ++ lit " This one is short.".

Definition warranty_text : text :=
  lit "The warranty lasts 2 years. Returns are accepted within 30 days.".

Definition ten_characters : text := lit "abcdefghij".

Definition source_metadata : dict := [(lit "source", VStr (lit "doc.pdf"))].

(** The same capabilities with an encoder that never raises. *)
Definition toy_embed (t : text) : Q := inject_Z (Z.of_nat (length t)).

Definition toy_pure (llm : nat -> text -> result text) : Capabilities :=
  {| Vec := Q;
     l2_distance := fun a b => ((a - b) * (a - b))%Q;
     encode := fun texts => Ok (map toy_embed texts);
     generate_content := llm;
     uniform := fun _ => (1 # 2)%Q |}.

(** The rows [toy_encode] gives for the first eight of [nine_chunks]. *)
Definition first_batch_rows : list Q :=
  map (fun n => inject_Z (Z.of_nat n)) [1; 2; 3; 4; 5; 6; 7; 8].

Definition one_match : list ClauseMatch :=
  [ {| match_content := lit "The warranty lasts 2 years.";
       similarity_score := 0%Q |} ].

Definition three_questions : list text :=
  [ lit "How long is the warranty?"; lit "Who pays?"; lit "Returns?" ].

(** ** Download and text extraction

    What [DocumentProcessor] consumes from the outside: the URL parser,
    the HTTP client and the two document parsers.

    - [url_path url] is [urlparse(url).path];
    - [http_get url] is [requests.get(url, timeout=25)] followed by
      [raise_for_status()]: the body, or a [RequestException];
    - [pdf_page_texts content] is [page.extract_text()] for each page of
      [PyPDF2.PdfReader(io.BytesIO(content))], or the exception one of
      these steps raises;
    - [docx_paragraph_texts content] is [p.text] for each paragraph of
      [Document(io.BytesIO(content))], or the exception raised. *)
Class Extractors : Type := {
  url_path : text -> text;
  http_get : text -> result text;
  pdf_page_texts : text -> result (list text);
  docx_paragraph_texts : text -> result (list text)
}.

(** [c.lower()] on a code point below 256: the letters A..Z and the
    capital letters of Latin-1 (all of 192..222 but the sign 215). *)
Definition py_lower_char (c : ascii) : ascii :=
  let n := nat_of_ascii c in
  if ((65 <=? n) && (n <=? 90))
     || ((192 <=? n) && (n <=? 222) && negb (n =? 215))
  then ascii_of_nat (n + 32)
  else c.

(** [s.lower()] *)
Definition py_lower (s : text) : text := map py_lower_char s.

(** [s.endswith(suffix)] *)
Definition py_endswith (s suffix : text) : bool :=
  Py.starts_with (rev suffix) (rev s).

Section Extraction.

Context {ext : Extractors}.

Definition download_document (url : text) : result text :=
  match http_get url with
  | Ok body => Ok body
  | Raise e =>
      Raise (Exn (lit "Failed to download document from URL: "
                  ++ str_of_exn e))
  end.

Definition get_file_type (url : text) : text :=
  let file_path := py_lower (url_path url) in
  if py_endswith file_path (lit ".pdf") then lit "pdf"
  else if py_endswith file_path (lit ".docx") then lit "docx"
  else lit "pdf".

(** The loop of [_extract_text_from_pdf]: a page whose text is not empty
    adds its text and a newline. *)
Definition add_page (acc : text) (page_text : text) : text :=
  match page_text with
  | [] => acc
  | _ => acc ++ page_text ++ [Py.newline]
  end.

Definition _extract_text_from_pdf (content : text) : result text :=
  match pdf_page_texts content with
  | Ok pages => Ok (fold_left add_page pages [])
  | Raise e =>
      Raise (Exn (lit "Failed to extract text from PDF: " ++ str_of_exn e))
  end.

Definition is_empty (s : text) : bool :=
  match s with [] => true | _ => false end.

Definition _extract_text_from_docx (content : text) : result text :=
  match docx_paragraph_texts content with
  | Ok paragraphs =>
      Ok (Py.join [Py.newline]
                  (filter (fun p => negb (is_empty (Py.strip p))) paragraphs))
  | Raise e =>
      Raise (Exn (lit "Failed to extract text from DOCX: " ++ str_of_exn e))
  end.

Definition extract_text (content : text) (file_type : text) : result text :=
  if text_eqb file_type (lit "pdf") then _extract_text_from_pdf content
  else if text_eqb file_type (lit "docx") then _extract_text_from_docx content
  else Raise (Exn (lit "Unsupported file type: " ++ file_type)).

End Extraction.

Section Submission.

Context {cap : Capabilities} {ext : Extractors}.
Local Open Scope monad_scope.

(** The body of [run_submission] once the token has been verified: the
    four steps inside one [try], any exception turned into an
    [HTTPException] with status 500. *)
Definition run_submission (documents : text) (questions : list text)
  : M (list text) :=
  try_except
    (content <- lift_result (download_document documents) ;;
     let file_type := get_file_type documents in
     txt <- lift_result (extract_text content file_type) ;;
     let chunks :=
       sentence_aware_chunking doc_processor txt
                               [(lit "source", VStr documents)] in
     embed_and_index chunks default_batch_size ;;
     process_all_queries questions)
    (fun e =>
       raise (Exn (lit "500: An internal processing error occurred: "
                   ++ str_of_exn e))).

End Submission.

(** ** Further notions used in the statements *)

(** The characters of a text that are not whitespace, in order. *)
Definition non_space (s : text) : text :=
  filter (fun c => negb (Py.is_space c)) s.

(** A word: a non-empty text without whitespace. *)
Definition is_word (s : text) : Prop :=
  s <> [] /\ Forall (fun c => Py.is_space c = false) s.

(** The words of a list of texts, in order. *)
Definition words_of (parts : list text) : list text :=
  concat (map Py.split parts).

(** The message starts with the prefix of the handler of
    [run_submission]. *)
Definition is_internal_error (e : exn) : Prop :=
  Py.starts_with (lit "500: An internal processing error occurred: ")
                 (str_of_exn e) = true.

(** Parsers for running the extraction: the content is its own single
    page or paragraph, the path is the URL itself, a URL that contains
    [<down>] cannot be fetched. *)
Definition toy_extractors : Extractors :=
  {| url_path := fun url => url;
     http_get := fun url =>
       if Py.contains (lit "<down>") url
       then Raise (Exn (lit "connection refused"))
       else Ok warranty_text;
     pdf_page_texts := fun content => Ok [content; []; lit "Page two."];
     docx_paragraph_texts := fun content =>
       Ok [content; lit "   "; lit "Second paragraph."] |}.

Definition answers_fine : nat -> text -> result text :=
  fun _ _ => Ok (lit "It lasts 2 years.").

(** Rate-limited once, then an answer. *)
Definition limited_once : nat -> text -> result text :=
  fun k _ =>
    if k =? 0 then Raise (Exn (lit "429 Too Many Requests"))
    else Ok (lit " It lasts  2 years.").

Definition chunk_id_metadata : dict :=
  [(lit "source", VStr (lit "doc.pdf")); (lit "chunk_id", VInt 7)].

(* ================================================================== *)
(** * Part II: properties                                              *)
(* ================================================================== *)

(** ** Python text *)

Lemma split_go_space_app (a b cur : text) :
  Py.split_go cur (a ++ Py.space :: b)
  = Py.split_go cur a ++ Py.split_go [] b.
Proof.
  revert cur; induction a as [|c a IH]; intros cur.
  - cbn [app Py.split_go].
    change (Py.is_space Py.space) with true; cbn iota.
    destruct cur; reflexivity.
  - cbn [app Py.split_go].
    destruct (Py.is_space c).
    + destruct cur; rewrite IH; reflexivity.
    + apply IH.
Qed.

Lemma word_count_join (g : list text) :
  word_count (Py.join [Py.space] g) = words_total g.
Proof.
  unfold words_total.
  induction g as [|p [|q rest] IH].
  - reflexivity.
  - cbn [Py.join map list_sum fold_right]. lia.
  - change (Py.join [Py.space] (p :: q :: rest))
      with (p ++ Py.space :: Py.join [Py.space] (q :: rest)).
    unfold word_count, Py.split in *.
    rewrite split_go_space_app, length_app, IH.
    cbn [map list_sum fold_right]. reflexivity.
Qed.

Lemma join_singleton (sep s : text) : Py.join sep [s] = s.
Proof. reflexivity. Qed.

Lemma text_eqb_eq (a b : text) : text_eqb a b = true <-> a = b.
Proof.
  unfold text_eqb.
  destruct (list_eq_dec ascii_dec a b); split; congruence.
Qed.

Lemma dict_get_set (d : dict) (k k' : text) (v : value) :
  dict_get (dict_set d k' v) k
  = if text_eqb k k' then Some v else dict_get d k.
Proof.
  induction d as [|[k0 v0] d IH]; cbn.
  - reflexivity.
  - destruct (text_eqb k' k0) eqn:E'; cbn.
    + apply text_eqb_eq in E'; subst k0.
      destruct (text_eqb k k'); reflexivity.
    + rewrite IH.
      destruct (text_eqb k k0) eqn:E0, (text_eqb k k') eqn:E; try reflexivity.
      apply text_eqb_eq in E0, E; subst.
      assert (H : text_eqb k0 k0 = true) by (apply text_eqb_eq; reflexivity).
      congruence.
Qed.

Lemma dict_get_update (extra d : dict) (k : text) :
  dict_get extra k = None ->
  dict_get (dict_update d extra) k = dict_get d k.
Proof.
  unfold dict_update.
  revert d; induction extra as [|[k0 v0] extra IH]; intros d H; cbn in *.
  - reflexivity.
  - destruct (text_eqb k k0) eqn:E; [discriminate|].
    rewrite IH by assumption.
    rewrite dict_get_set, E; reflexivity.
Qed.

(** ** The chunker *)

Section Chunker.

Variable self : DocumentProcessor.

Local Abbreviation fits := (within_budget self).

Lemma words_total_app (g h : list text) :
  words_total (g ++ h) = words_total g + words_total h.
Proof.
  unfold words_total. rewrite map_app, list_sum_app. reflexivity.
Qed.

Lemma grouping_loop_invariant (sentences : list text) :
  forall groups current n groups' current' n',
    grouping_loop self sentences groups current n
    = (groups', current', n') ->
    n = words_total current ->
    fits current ->
    Forall fits groups ->
    Forall fits groups' /\ fits current' /\
    concat groups' ++ current' = concat groups ++ current ++ sentences.
Proof.
  induction sentences as [|s rest IH];
    intros groups current n gs c n' E Hn Hc Hg.
  - cbn in E. inversion E; subst. rewrite app_nil_r. auto.
  - cbn [grouping_loop] in E.
    assert (Hs : words_total [s] = length (Py.split s))
      by (unfold words_total, word_count; cbn [map list_sum fold_right]; lia).
    destruct (Nat.leb_spec (n + length (Py.split s)) (chunk_size self))
      as [Hfit|Hover].
    + apply IH in E.
      * destruct E as (? & ? & ->). rewrite <- app_assoc. auto.
      * rewrite words_total_app. lia.
      * right. rewrite words_total_app. lia.
      * assumption.
    + apply IH in E.
      * destruct E as (? & ? & ->).
        rewrite concat_app. cbn [concat]. rewrite app_nil_r.
        rewrite <- !app_assoc. auto.
      * lia.
      * left. cbn. lia.
      * apply Forall_app. auto.
Qed.

Lemma sentence_groups_spec (txt : text) :
  Forall fits (sentence_groups self txt) /\
  concat (sentence_groups self txt) = kept_sentences txt.
Proof.
  unfold sentence_groups.
  destruct (grouping_loop self (kept_sentences txt) [] [] 0)
    as [[gs c] n] eqn:E.
  apply grouping_loop_invariant in E;
    [ | reflexivity | left; cbn; lia | constructor ].
  destruct E as (Hg & Hc & Hcat). cbn in Hcat.
  destruct c as [|s c].
  - rewrite app_nil_r in Hcat. auto.
  - split.
    + apply Forall_app. auto.
    + rewrite concat_app. cbn. rewrite app_nil_r. assumption.
Qed.

(** The chunker and the grouping loop take the same branches: the
    contents of the chunks are the groups joined by a space. *)
Lemma chunking_loop_groups (meta : dict) (sentences : list text) :
  forall chunks groups current n,
    map content chunks = map (Py.join [Py.space]) groups ->
    let '(chunks', c1, n1) :=
      chunking_loop self meta sentences chunks current n in
    let '(groups', c2, n2) :=
      grouping_loop self sentences groups current n in
    map content chunks' = map (Py.join [Py.space]) groups' /\
    c1 = c2 /\ n1 = n2.
Proof.
  induction sentences as [|s rest IH]; intros chunks groups current n H.
  - cbn. auto.
  - cbn [chunking_loop grouping_loop].
    destruct (n + length (Py.split s) <=? chunk_size self).
    + apply IH; assumption.
    + apply IH. rewrite !map_app, H. reflexivity.
Qed.

Lemma chunking_contents (txt : text) (meta : dict) :
  map content (sentence_aware_chunking self txt meta)
  = map (Py.join [Py.space]) (sentence_groups self txt).
Proof.
  unfold sentence_aware_chunking, sentence_groups.
  pose proof (chunking_loop_groups meta (kept_sentences txt)
                [] [] [] 0 eq_refl) as H.
  destruct (chunking_loop self meta (kept_sentences txt) [] [] 0)
    as [[cs c1] n1].
  destruct (grouping_loop self (kept_sentences txt) [] [] 0)
    as [[gs c2] n2].
  destruct H as (H & <- & _).
  destruct c1; [assumption|].
  rewrite !map_app, H. reflexivity.
Qed.

(** The loop only ever appends to [chunks]. *)
Lemma chunking_loop_extends (meta : dict) (sentences : list text) :
  forall chunks current n,
  exists more,
    fst (fst (chunking_loop self meta sentences chunks current n))
    = chunks ++ more.
Proof.
  induction sentences as [|s rest IH]; intros chunks current n.
  - exists []. cbn. rewrite app_nil_r. reflexivity.
  - cbn [chunking_loop].
    destruct (n + length (Py.split s) <=? chunk_size self).
    + apply IH.
    + destruct (IH (chunks ++ [close_chunk chunks current meta]) [s]
                   (length (Py.split s))) as [more ->].
      eexists. rewrite <- app_assoc. reflexivity.
Qed.

End Chunker.

Lemma word_count_le_total (s : text) (g : list text) :
  In s g -> word_count s <= words_total g.
Proof.
  unfold words_total.
  induction g as [|p g IH]; cbn [In map list_sum fold_right]; intros H.
  - contradiction.
  - destruct H as [->|H]; [lia|]. apply IH in H. unfold list_sum in H. lia.
Qed.

Lemma kept_sentences_In (txt s : text) :
  In s (kept_sentences txt) <->
  exists seg,
    In seg (Py.sentence_split (Py.replace_newlines txt)) /\
    s = Py.strip seg /\ 10 < length s.
Proof.
  unfold kept_sentences. rewrite in_map_iff. split.
  - intros (seg & <- & H). apply filter_In in H. destruct H as [H1 H2].
    apply Nat.ltb_lt in H2. eauto.
  - intros (seg & H1 & -> & H2). exists seg. split; [reflexivity|].
    apply filter_In. split; [assumption|]. apply Nat.ltb_lt. assumption.
Qed.

(** C6, as the code has it: a piece of the split is kept exactly when its
    trimmed length is more than 10 characters (a piece of exactly 10
    characters is dropped), and a kept piece, trimmed, is one of the
    sentences of one of the groups the chunks are joined from. *)
Theorem sentence_kept_iff_longer_than_10 (txt seg : text) :
  In seg (Py.sentence_split (Py.replace_newlines txt)) ->
  (In (Py.strip seg) (kept_sentences txt) <-> 10 < length (Py.strip seg)) /\
  (10 < length (Py.strip seg) ->
   exists g,
     In g (sentence_groups doc_processor txt) /\ In (Py.strip seg) g /\
     forall meta,
       In (Py.join [Py.space] g)
          (map content (sentence_aware_chunking doc_processor txt meta))).
Proof.
  intros Hseg.
  assert (Hkeep : 10 < length (Py.strip seg) ->
                  In (Py.strip seg) (kept_sentences txt)).
  { intros H. apply kept_sentences_In. eauto. }
  split.
  - split; [|exact Hkeep].
    intros H. apply kept_sentences_In in H.
    destruct H as (seg' & _ & E & H). exact H.
  - intros H. apply Hkeep in H.
    destruct (sentence_groups_spec doc_processor txt) as [_ Hcat].
    rewrite <- Hcat in H. apply in_concat in H.
    destruct H as (g & Hg & Hs).
    exists g. repeat split; try assumption.
    intros meta. rewrite chunking_contents. apply in_map. assumption.
Qed.

(** C7: the contents of the chunks are the groups of kept sentences joined
    by a space, the groups taken in order are the kept sentences, a chunk
    of more than one sentence has at most 256 words, and a kept sentence
    of more than 256 words is the only sentence of its chunk, whose
    content is that sentence, whole. *)
Theorem chunk_word_budget (txt : text) (meta : dict) :
  let groups := sentence_groups doc_processor txt in
  let chunks := sentence_aware_chunking doc_processor txt meta in
  map content chunks = map (Py.join [Py.space]) groups /\
  concat groups = kept_sentences txt /\
  (forall g, In g groups -> 1 < length g ->
             word_count (Py.join [Py.space] g) <= 256) /\
  (forall s, In s (kept_sentences txt) -> 256 < word_count s ->
             In [s] groups /\
             (forall g, In g groups -> In s g -> g = [s]) /\
             In s (map content chunks)).
Proof.
  intros groups chunks.
  destruct (sentence_groups_spec doc_processor txt) as [Hfit Hcat].
  fold groups in Hfit, Hcat.
  assert (Hmap : map content chunks = map (Py.join [Py.space]) groups)
    by apply chunking_contents.
  rewrite Forall_forall in Hfit.
  assert (Halone : forall s g, 256 < word_count s -> In g groups ->
                               In s g -> g = [s]).
  { intros s g Hlong Hg Hs.
    destruct (Hfit g Hg) as [Hlen|Hsum].
    - destruct g as [|x [|y g]]; cbn in Hlen, Hs; try lia; try contradiction.
      destruct Hs as [->|[]]. reflexivity.
    - apply word_count_le_total in Hs. cbn in Hsum. lia. }
  repeat split; try assumption.
  - intros g Hg Hlen. rewrite word_count_join.
    destruct (Hfit g Hg) as [H|H]; [lia|exact H].
  - rewrite <- Hcat in H. apply in_concat in H.
    destruct H as (g & Hg & Hs).
    rewrite <- (Halone s g H0 Hg Hs). assumption.
  - eauto.
  - rewrite <- Hcat in H. apply in_concat in H.
    destruct H as (g & Hg & Hs).
    rewrite Hmap. rewrite <- (join_singleton [Py.space] s).
    apply in_map. rewrite <- (Halone s g H0 Hg Hs). assumption.
Qed.

(** C10: when the first kept sentence has more than 256 words, the first
    chunk has the empty string as content and [chunk_id] 0, and the second
    chunk holds that sentence and nothing else. *)
Theorem leading_long_sentence_gives_empty_chunk
        (txt : text) (meta : dict) (s : text) (rest : list text) :
  kept_sentences txt = s :: rest ->
  256 < word_count s ->
  dict_get meta (lit "chunk_id") = None ->
  exists c0 c1 tail,
    sentence_aware_chunking doc_processor txt meta = c0 :: c1 :: tail /\
    content c0 = [] /\ chunk_id c0 = Some (VInt 0) /\
    content c1 = s /\ chunk_id c1 = Some (VInt 1).
Proof.
  intros Hkept Hlong Hmeta.
  set (c0 := close_chunk [] [] meta).
  set (c1 := close_chunk [c0] [s] meta).
  assert (Hshape : exists tail,
             sentence_aware_chunking doc_processor txt meta
             = c0 :: c1 :: tail).
  { unfold sentence_aware_chunking. rewrite Hkept.
    cbn [chunking_loop]. fold (word_count s).
    destruct (Nat.leb_spec (0 + word_count s) (chunk_size doc_processor))
      as [H|_]; [cbn in H; lia|].
    fold c0. cbn [app].
    destruct rest as [|s' rest].
    - cbn [chunking_loop]. exists []. reflexivity.
    - cbn [chunking_loop]. fold (word_count s').
      destruct (Nat.leb_spec (word_count s + word_count s')
                             (chunk_size doc_processor))
        as [H|_]; [cbn in H; lia|].
      cbn [app]. fold c1.
      destruct (chunking_loop_extends doc_processor meta rest
                  [c0; c1] [s'] (word_count s')) as [more Hmore].
      destruct (chunking_loop doc_processor meta rest [c0; c1] [s']
                              (word_count s')) as [[cs cur] n].
      cbn in Hmore. subst cs.
      destruct cur; eexists; cbn [app]; reflexivity. }
  destruct Hshape as [tail Hshape].
  exists c0, c1, tail. split; [assumption|].
  unfold chunk_id, c1, c0, close_chunk; cbn [content metadata Py.join length].
  rewrite !dict_get_update by assumption.
  repeat split; reflexivity.
Qed.

(** ** Lists and slices *)

Lemma firstn_plus {A} (a b : nat) (l : list A) :
  firstn (a + b) l = firstn a l ++ firstn b (skipn a l).
Proof.
  revert l; induction a as [|a IH]; intros l.
  - reflexivity.
  - destruct l as [|x l]; cbn.
    + rewrite firstn_nil. reflexivity.
    + rewrite IH. reflexivity.
Qed.

Lemma slice_from (A : Type) (l : list A) (i n : nat) :
  Py.slice l i (i + n) = firstn n (skipn i l).
Proof. unfold Py.slice. f_equal. lia. Qed.

Lemma concat_slices {A} (l : list A) (bs k : nat) :
  concat (map (fun i => Py.slice l i (i + bs)) (batch_starts bs k))
  = firstn (k * bs) l.
Proof.
  unfold batch_starts.
  induction k as [|k IH].
  - reflexivity.
  - rewrite seq_S, !map_app, concat_app, IH. cbn [map concat plus].
    rewrite app_nil_r, slice_from.
    replace (S k * bs) with (k * bs + bs) by lia.
    symmetry. apply firstn_plus.
Qed.

Lemma batches_cover (n bs : nat) :
  0 < bs -> n <= ((n + bs - 1) / bs) * bs.
Proof.
  intros Hbs.
  pose proof (Nat.mul_succ_div_gt (n + bs - 1) bs ltac:(lia)). lia.
Qed.

Lemma range0_starts (n bs : nat) :
  Py.range0 n bs = batch_starts bs ((n + bs - 1) / bs).
Proof. reflexivity. Qed.

Lemma batch_starts_split (bs k m : nat) :
  k < m ->
  batch_starts bs m
  = batch_starts bs k ++ (k * bs) :: map (fun j => j * bs) (seq (S k) (m - S k)).
Proof.
  intros H. unfold batch_starts.
  replace m with (k + S (m - S k)) at 1 by lia.
  rewrite seq_app, map_app. reflexivity.
Qed.

Lemma batch_index_lt (n bs k : nat) :
  0 < bs -> k * bs < n -> k < (n + bs - 1) / bs.
Proof.
  intros Hbs H.
  apply Nat.div_le_lower_bound; [lia|]. nia.
Qed.

Lemma Forall2_of_nth_error {A B} (R : A -> B -> Prop) (l1 : list A) :
  forall l2 : list B,
    length l1 = length l2 ->
    (forall j a b, nth_error l1 j = Some a -> nth_error l2 j = Some b ->
                   R a b) ->
    Forall2 R l1 l2.
Proof.
  induction l1 as [|a l1 IH]; intros [|b l2] Hlen H; cbn in Hlen;
    try discriminate; constructor.
  - apply (H 0); reflexivity.
  - apply IH; [lia|]. intros j. apply (H (S j)).
Qed.

(** ** The indexing operation *)

Section Indexing.

Context {cap : Capabilities}.

Variable chunks : list DocumentChunk.
Variable batch_size : nat.

Local Abbreviation encoded := (batch_encoded chunks batch_size).
Local Abbreviation entries_of starts :=
  (map store_entry_of
       (concat (map (fun i => Py.slice chunks i (i + batch_size)) starts))).

Lemma index_batch_ok (i : nat) (rows : list Vec) (w : World) :
  encoded i rows ->
  index_batch chunks batch_size i w
  = (Ok tt,
     with_index (faiss_index w ++ rows)
                (document_store w ++ entries_of [i]) w).
Proof.
  unfold batch_encoded, batch_texts_at, index_batch, model_encode,
    lift_result, bind.
  intros ->. cbn. rewrite app_nil_r. reflexivity.
Qed.

Lemma index_batch_raise (i : nat) (e : exn) (w : World) :
  encode (batch_texts_at chunks batch_size i) = Raise e ->
  index_batch chunks batch_size i w = (Raise e, w).
Proof.
  unfold batch_texts_at, index_batch, model_encode, lift_result, bind.
  intros ->. reflexivity.
Qed.

Lemma with_index_same (w : World) :
  with_index (faiss_index w) (document_store w) w = w.
Proof. destruct w; reflexivity. Qed.

(** The loop over a run of batches the encoder answers. *)
Lemma for_each_batches_ok (starts : list nat) :
  forall (rowss : list (list Vec)) (w : World),
    Forall2 encoded starts rowss ->
    for_each starts (index_batch chunks batch_size) w
    = (Ok tt,
       with_index (faiss_index w ++ concat rowss)
                  (document_store w ++ entries_of starts) w).
Proof.
  induction starts as [|i starts IH]; intros rowss w H;
    inversion H as [|? rows ? rowss' Hrow Hrest]; subst.
  - cbn. rewrite !app_nil_r, with_index_same. reflexivity.
  - cbn [for_each]. unfold bind at 1.
    rewrite index_batch_ok with (rows := rows) by assumption.
    rewrite (IH _ _ Hrest).
    cbn [faiss_index document_store with_index map concat
         embedding_model_loaded llm_calls rng_draws log].
    rewrite !app_nil_r, !map_app, <- !app_assoc.
    reflexivity.
Qed.

(** The loop stops at the first batch the encoder refuses, with what
    the batches before it have added. *)
Lemma for_each_batches_raise (before after : list nat) (i : nat) (e : exn) :
  forall (rowss : list (list Vec)) (w : World),
    Forall2 encoded before rowss ->
    encode (batch_texts_at chunks batch_size i) = Raise e ->
    for_each (before ++ i :: after) (index_batch chunks batch_size) w
    = (Raise e,
       with_index (faiss_index w ++ concat rowss)
                  (document_store w ++ entries_of before) w).
Proof.
  induction before as [|i0 before IH]; intros rowss w H He;
    inversion H as [|? rows ? rowss' Hrow Hrest]; subst.
  - cbn [app for_each]. unfold bind.
    rewrite index_batch_raise with (e := e) by exact He. cbn.
    rewrite !app_nil_r, with_index_same. reflexivity.
  - cbn [app for_each]. unfold bind at 1.
    rewrite index_batch_ok with (rows := rows) by assumption.
    rewrite (IH _ _ Hrest He).
    cbn [faiss_index document_store with_index map concat
         embedding_model_loaded llm_calls rng_draws log].
    rewrite !map_app, <- !app_assoc.
    reflexivity.
Qed.

(** Every run of the loop is of one of the two kinds above. *)
Lemma for_each_batches_cases (starts : list nat) :
  (exists rowss, Forall2 encoded starts rowss) \/
  (exists before i after rowss e,
      starts = before ++ i :: after /\
      Forall2 encoded before rowss /\
      encode (batch_texts_at chunks batch_size i) = Raise e).
Proof.
  induction starts as [|i starts IH].
  - left. exists []. constructor.
  - destruct (encode (batch_texts_at chunks batch_size i)) as [rows|e] eqn:E.
    + destruct IH as [[rowss H]|(before & j & after & rowss & e & -> & H & He)].
      * left. exists (rows :: rowss). constructor; assumption.
      * right. exists (i :: before), j, after, (rows :: rowss), e.
        repeat split; try assumption. constructor; assumption.
    + right. exists [], i, starts, [], e.
      repeat split; try assumption. constructor.
Qed.

End Indexing.

Section IndexingResults.

Context {cap : Capabilities}.

Lemma embed_and_index_empty (batch_size : nat) (w : World) :
  embed_and_index [] batch_size w = (Ok tt, w).
Proof. reflexivity. Qed.

Lemma embed_and_index_zero_batch (chunks : list DocumentChunk) (w : World) :
  chunks <> [] ->
  exists e,
    embed_and_index chunks 0 w = (Raise e, with_index [] [] (loaded w)).
Proof.
  intros H. destruct chunks as [|c chunks]; [congruence|].
  eexists. reflexivity.
Qed.

(** On a non-empty sequence the call clears both globals, loads the
    model and runs the loop over the batch starts. *)
Lemma embed_and_index_unfold (chunks : list DocumentChunk)
      (batch_size : nat) (w : World) :
  chunks <> [] -> 0 < batch_size ->
  embed_and_index chunks batch_size w
  = for_each (Py.range0 (length chunks) batch_size)
             (index_batch chunks batch_size)
             (with_index [] [] (loaded w)).
Proof.
  intros Hc Hb.
  destruct chunks as [|c chunks]; [congruence|].
  destruct batch_size as [|b]; [lia|].
  reflexivity.
Qed.

Lemma embed_and_index_ok (chunks : list DocumentChunk) (batch_size : nat)
      (rowss : list (list Vec)) (w : World) :
  chunks <> [] -> 0 < batch_size ->
  Forall2 (batch_encoded chunks batch_size)
          (Py.range0 (length chunks) batch_size) rowss ->
  embed_and_index chunks batch_size w
  = (Ok tt,
     with_index (concat rowss) (map store_entry_of chunks) (loaded w)).
Proof.
  intros Hc Hb H.
  rewrite embed_and_index_unfold by assumption.
  rewrite for_each_batches_ok with (rowss := rowss) by assumption.
  rewrite range0_starts, concat_slices.
  rewrite firstn_all2 by (apply batches_cover; assumption).
  reflexivity.
Qed.

Lemma embed_and_index_raise (chunks : list DocumentChunk)
      (batch_size k : nat) (rowss : list (list Vec)) (e : exn)
      (w : World) :
  0 < batch_size ->
  k * batch_size < length chunks ->
  Forall2 (batch_encoded chunks batch_size)
          (batch_starts batch_size k) rowss ->
  encode (batch_texts_at chunks batch_size (k * batch_size)) = Raise e ->
  embed_and_index chunks batch_size w
  = (Raise e,
     with_index (concat rowss)
                (map store_entry_of (firstn (k * batch_size) chunks))
                (loaded w)).
Proof.
  intros Hb Hk H He.
  assert (Hc : chunks <> []) by (destruct chunks; cbn in Hk; [lia|congruence]).
  rewrite embed_and_index_unfold by assumption.
  rewrite range0_starts.
  rewrite (@batch_starts_split batch_size k)
    by (apply batch_index_lt; assumption).
  rewrite for_each_batches_raise with (rowss := rowss) (e := e)
    by assumption.
  rewrite concat_slices. reflexivity.
Qed.

End IndexingResults.

Section IndexingClaims.

Context {cap : Capabilities}.

(** C1, as the code has it: called with an empty chunk sequence,
    [embed_and_index] returns at once and touches nothing; the index and
    the document store keep what they held, so they are empty after the
    call exactly when they were empty before it. *)
Theorem embed_and_index_empty_is_noop (batch_size : nat) (w : World) :
  embed_and_index [] batch_size w = (Ok tt, w) /\
  faiss_index (snd (embed_and_index [] batch_size w)) = faiss_index w /\
  document_store (snd (embed_and_index [] batch_size w))
  = document_store w /\
  (ntotal (snd (embed_and_index [] batch_size w)) = 0 <-> ntotal w = 0) /\
  ntotal (snd (embed_and_index [] batch_size initial_world)) = 0.
Proof.
  rewrite !embed_and_index_empty. cbn [snd].
  repeat split; auto.
Qed.

(** C2, as the code has it: when the encoder raises on batch [k], the
    batches before it having been answered, the exception leaves
    [embed_and_index] and the two globals hold what those [k] batches
    added: the rows the encoder gave for them and the entries of the
    first [k * batch_size] chunks.  They are empty only for [k = 0]. *)
Theorem embed_and_index_failure_keeps_earlier_batches
        (chunks : list DocumentChunk) (batch_size k : nat)
        (rowss : list (list Vec)) (e : exn) (w : World) :
  0 < batch_size ->
  k * batch_size < length chunks ->
  Forall2 (batch_encoded chunks batch_size)
          (batch_starts batch_size k) rowss ->
  encode (batch_texts_at chunks batch_size (k * batch_size)) = Raise e ->
  exists w',
    embed_and_index chunks batch_size w = (Raise e, w') /\
    faiss_index w' = concat rowss /\
    document_store w'
    = map store_entry_of (firstn (k * batch_size) chunks) /\
    length (document_store w') = k * batch_size /\
    (k = 0 -> faiss_index w' = [] /\ document_store w' = []).
Proof.
  intros Hb Hk H He.
  eexists. split.
  - apply embed_and_index_raise; eassumption.
  - cbn [with_index faiss_index document_store].
    split; [reflexivity|]. split; [reflexivity|]. split.
    + rewrite length_map, length_firstn. lia.
    + intros ->. inversion H; subst. split; reflexivity.
Qed.

(** A handler around the pipeline sees the exception of [embed_and_index]
    as an internal error, with the state the call left. *)
Lemma run_pipeline_index_failure (source txt : text)
      (questions : list text) (e : exn) (w w' : World) :
  embed_and_index
    (sentence_aware_chunking doc_processor txt
                             [(lit "source", VStr source)])
    default_batch_size w = (Raise e, w') ->
  run_pipeline source txt questions w
  = (Raise (Exn (lit "500: An internal processing error occurred: "
                 ++ str_of_exn e)), w').
Proof.
  intros H. unfold run_pipeline, try_except, bind. rewrite H. reflexivity.
Qed.

Lemma pure_encoder_batches (embed : text -> Vec)
      (chunks : list DocumentChunk) (batch_size : nat)
      (starts : list nat) :
  (forall texts, encode texts = Ok (map embed texts)) ->
  Forall2 (batch_encoded chunks batch_size) starts
          (map (fun i => map embed (batch_texts_at chunks batch_size i))
               starts).
Proof.
  intros H. induction starts; cbn; constructor; auto. apply H.
Qed.

Lemma pure_encoder_index (embed : text -> Vec)
      (chunks : list DocumentChunk) (batch_size : nat) (w : World) :
  (forall texts, encode texts = Ok (map embed texts)) ->
  chunks <> [] -> 0 < batch_size ->
  embed_and_index chunks batch_size w
  = (Ok tt,
     with_index (map embed (map content chunks))
                (map store_entry_of chunks) (loaded w)).
Proof.
  intros H Hc Hb.
  rewrite embed_and_index_ok
    with (rowss := map (fun i => map embed (batch_texts_at chunks batch_size i))
                       (Py.range0 (length chunks) batch_size));
    try assumption; [|apply pure_encoder_batches; assumption].
  do 3 f_equal.
  unfold batch_texts_at.
  rewrite <- (map_map (fun i => Py.slice chunks i (i + batch_size))
                      (fun b => map embed (map content b))).
  rewrite <- (map_map (map content) (map embed)).
  rewrite <- !concat_map.
  rewrite range0_starts, concat_slices.
  rewrite firstn_all2 by (apply batches_cover; assumption).
  reflexivity.
Qed.

(** C9: when [encode] is the map of a function of the single text, on a
    non-empty chunk sequence the call with batches of 8 and the call with
    one batch holding every chunk return the same result in the same
    state, the one where the index holds the embeddings of the contents
    in order and the store the entries of the chunks in order. *)
Theorem batch_boundaries_have_no_effect (embed : text -> Vec)
        (chunks : list DocumentChunk) (w : World) :
  (forall texts, encode texts = Ok (map embed texts)) ->
  chunks <> [] ->
  embed_and_index chunks default_batch_size w
  = embed_and_index chunks (length chunks) w /\
  embed_and_index chunks default_batch_size w
  = (Ok tt,
     with_index (map embed (map content chunks))
                (map store_entry_of chunks) (loaded w)).
Proof.
  intros H Hc.
  assert (Hlen : 0 < length chunks)
    by (destruct chunks; cbn; [congruence|lia]).
  assert (H8 : 0 < default_batch_size)
    by (unfold default_batch_size; lia).
  rewrite !(pure_encoder_index embed) by assumption.
  split; reflexivity.
Qed.

End IndexingClaims.

(** ** Computations that leave the index alone *)

Create HintDb frame.

Section Frame.

Context {cap : Capabilities}.
Local Open Scope monad_scope.

Lemma same_index_refl (w : World) : same_index w w.
Proof. split; reflexivity. Qed.

Lemma same_index_trans (w1 w2 w3 : World) :
  same_index w1 w2 -> same_index w2 w3 -> same_index w1 w3.
Proof. intros [H1 H2] [H3 H4]. split; congruence. Qed.

Lemma preserves_ret {A} (a : A) : preserves_index (ret a).
Proof. intros w. apply same_index_refl. Qed.

Lemma preserves_raise {A} (e : exn) : preserves_index (@raise _ A e).
Proof. intros w. apply same_index_refl. Qed.

Lemma preserves_lift_result {A} (r : result A) :
  preserves_index (lift_result r).
Proof. intros w. apply same_index_refl. Qed.

Lemma preserves_get_world : preserves_index get_world.
Proof. intros w. apply same_index_refl. Qed.

Lemma preserves_bind {A B} (c : M A) (k : A -> M B) :
  preserves_index c -> (forall a, preserves_index (k a)) ->
  preserves_index (bind c k).
Proof.
  intros Hc Hk w. unfold bind.
  specialize (Hc w). destruct (c w) as [[a|e] w1]; cbn [snd] in *.
  - eapply same_index_trans; [exact Hc|apply Hk].
  - exact Hc.
Qed.

Lemma preserves_try_except {A} (c : M A) (h : exn -> M A) :
  preserves_index c -> (forall e, preserves_index (h e)) ->
  preserves_index (try_except c h).
Proof.
  intros Hc Hh w. unfold try_except.
  specialize (Hc w). destruct (c w) as [[a|e] w1]; cbn [snd] in *.
  - exact Hc.
  - eapply same_index_trans; [exact Hc|apply Hh].
Qed.

Lemma preserves_for_return {A B} (xs : list A) (body : A -> M (option B)) :
  (forall x, preserves_index (body x)) ->
  preserves_index (for_return xs body).
Proof.
  intros H. induction xs as [|x xs IH]; cbn [for_return].
  - apply preserves_ret.
  - apply preserves_bind; [apply H|].
    intros [b|]; [apply preserves_ret|exact IH].
Qed.

Lemma preserves_get_embedding_model : preserves_index get_embedding_model.
Proof. intros w. split; reflexivity. Qed.

Lemma preserves_generate_content_async (prompt : text) :
  preserves_index (generate_content_async prompt).
Proof. intros w. split; reflexivity. Qed.

Lemma preserves_random_uniform : preserves_index random_uniform.
Proof. intros w. split; reflexivity. Qed.

Lemma preserves_sleep (seconds : Q) : preserves_index (sleep seconds).
Proof. intros w. split; reflexivity. Qed.

Hint Resolve preserves_ret preserves_raise preserves_lift_result
     preserves_get_world preserves_get_embedding_model
     preserves_generate_content_async preserves_random_uniform
     preserves_sleep : frame.

Lemma preserves_faiss_search (xs : list Vec) (k : nat) :
  preserves_index (faiss_search xs k).
Proof.
  unfold faiss_search. destruct k; [apply preserves_raise|].
  apply preserves_bind; [apply preserves_get_world|].
  intros w. apply preserves_ret.
Qed.

Lemma preserves_search (query : text) (top_k : nat) :
  preserves_index (search query top_k).
Proof.
  unfold search, model_encode.
  apply preserves_bind; [apply preserves_get_world|]. intros w.
  destruct (ntotal w =? 0); [apply preserves_ret|].
  apply preserves_bind; [apply preserves_get_embedding_model|]. intros _.
  apply preserves_bind; [apply preserves_lift_result|]. intros row.
  apply preserves_bind; [apply preserves_faiss_search|].
  intros [distances indices].
  apply preserves_bind; [apply preserves_lift_result|]. intros distances0.
  apply preserves_bind; [apply preserves_lift_result|]. intros indices0.
  apply preserves_bind; [apply preserves_get_world|]. intros w'.
  apply preserves_lift_result.
Qed.

Lemma preserves_attempt_once (prompt : text) (attempt : nat) :
  preserves_index (attempt_once prompt attempt).
Proof.
  unfold attempt_once.
  apply preserves_try_except.
  - apply preserves_bind; auto with frame.
  - intros e.
    destruct (Py.contains (lit "429") (str_of_exn e) && (attempt <? 2)).
    + apply preserves_bind; [apply preserves_random_uniform|]. intros j.
      apply preserves_bind; [apply preserves_sleep|]. intros _.
      apply preserves_ret.
    + apply preserves_ret.
Qed.

Lemma preserves_generate_answer (query : text)
      (relevant_chunks : list ClauseMatch) :
  preserves_index (generate_answer query relevant_chunks).
Proof.
  unfold generate_answer.
  destruct relevant_chunks; auto with frame.
  apply preserves_bind.
  - apply preserves_for_return. intros. apply preserves_attempt_once.
  - intros [a|]; auto with frame.
Qed.

Lemma preserves_process_one (query : text) :
  preserves_index (_process_one query).
Proof.
  unfold _process_one. apply preserves_bind.
  - apply preserves_search.
  - intros. apply preserves_generate_answer.
Qed.

Lemma preserves_process_loop (queries : list text) :
  forall answers, preserves_index (process_loop queries answers).
Proof.
  induction queries as [|q queries IH]; intros answers; cbn [process_loop].
  - apply preserves_ret.
  - apply preserves_bind; [apply preserves_process_one|].
    intros a. apply IH.
Qed.

Lemma preserves_process_all_queries (queries : list text) :
  preserves_index (process_all_queries queries).
Proof. apply preserves_process_loop. Qed.

End Frame.

(** ** The index and the document store stay position-aligned *)

Lemma Forall2_nth_error_r {A B} (R : A -> B -> Prop) (l1 : list A)
      (l2 : list B) :
  Forall2 R l1 l2 ->
  forall i b, nth_error l2 i = Some b ->
              exists a, nth_error l1 i = Some a /\ R a b.
Proof.
  induction 1 as [|a b l1 l2 Hab _ IH]; intros [|i] b' E; cbn in E;
    try discriminate.
  - inversion E; subst. exists a. split; [reflexivity|assumption].
  - apply IH. assumption.
Qed.

Section Alignment.

Context {cap : Capabilities}.

(** The contract of the embedding provider: one row per text. *)
Hypothesis encode_rows :
  forall texts rows, encode texts = Ok rows -> length rows = length texts.

Local Abbreviation paired :=
  (Forall2 (fun v d => embedding_of v (entry_content d))).

Lemma batch_rows_aligned (batch : list DocumentChunk) (rows : list Vec) :
  encode (map content batch) = Ok rows ->
  paired rows (map store_entry_of batch).
Proof.
  intros E. apply Forall2_of_nth_error.
  - rewrite (encode_rows _ E), !length_map. reflexivity.
  - intros j v d Hv Hd.
    rewrite nth_error_map in Hd.
    destruct (nth_error batch j) as [c|] eqn:Hc; cbn in Hd; [|discriminate].
    inversion Hd; subst d. cbn [store_entry_of entry_content].
    exists (map content batch), rows, j.
    repeat split; try assumption.
    rewrite nth_error_map, Hc. reflexivity.
Qed.

Lemma batches_aligned (chunks : list DocumentChunk) (batch_size : nat)
      (starts : list nat) (rowss : list (list Vec)) :
  Forall2 (batch_encoded chunks batch_size) starts rowss ->
  paired (concat rowss)
         (map store_entry_of
              (concat (map (fun i => Py.slice chunks i (i + batch_size))
                           starts))).
Proof.
  induction 1 as [|i rows starts rowss Hrow _ IH]; cbn [map concat].
  - constructor.
  - rewrite map_app. apply Forall2_app; [|exact IH].
    apply batch_rows_aligned. exact Hrow.
Qed.

Lemma embed_and_index_aligned (chunks : list DocumentChunk)
      (batch_size : nat) (w : World) :
  aligned w -> aligned (snd (embed_and_index chunks batch_size w)).
Proof.
  intros Hw.
  destruct chunks as [|c0 chunks0] eqn:Ec; [exact Hw|].
  rewrite <- Ec.
  assert (Hc : chunks <> []) by (subst; discriminate).
  clear Ec. clear c0 chunks0.
  destruct (Nat.eq_dec batch_size 0) as [->|Hb].
  - destruct (embed_and_index_zero_batch w Hc) as [e ->].
    constructor.
  - rewrite embed_and_index_unfold by (assumption || lia).
    destruct (for_each_batches_cases chunks batch_size
                (Py.range0 (length chunks) batch_size))
      as [[rowss H]|(before & i & after & rowss & e & -> & H & He)].
    + rewrite for_each_batches_ok with (rowss := rowss) by assumption.
      apply batches_aligned. assumption.
    + rewrite for_each_batches_raise with (rowss := rowss) (e := e)
        by assumption.
      apply batches_aligned. assumption.
Qed.

Lemma same_index_aligned (w w' : World) :
  same_index w w' -> aligned w -> aligned w'.
Proof. unfold aligned. intros [-> ->]. auto. Qed.

Lemma reachable_aligned (w : World) : reachable w -> aligned w.
Proof.
  induction 1 as [|w chunks batch_size _ IH|w queries _ IH].
  - constructor.
  - apply embed_and_index_aligned. exact IH.
  - eapply same_index_aligned; [|exact IH].
    apply preserves_process_all_queries.
Qed.

Lemma embed_and_index_completed (chunks : list DocumentChunk)
      (batch_size : nat) (w w' : World) :
  chunks <> [] ->
  embed_and_index chunks batch_size w = (Ok tt, w') ->
  document_store w' = map store_entry_of chunks.
Proof.
  intros Hc E.
  destruct (Nat.eq_dec batch_size 0) as [->|Hb].
  - destruct (embed_and_index_zero_batch w Hc) as [e E'].
    rewrite E' in E. discriminate.
  - rewrite embed_and_index_unfold in E by (assumption || lia).
    destruct (for_each_batches_cases chunks batch_size
                (Py.range0 (length chunks) batch_size))
      as [[rowss H]|(before & i & after & rowss & e & Hs & H & He)].
    + rewrite for_each_batches_ok with (rowss := rowss) in E by assumption.
      inversion E; subst w'. cbn [with_index document_store app].
      rewrite range0_starts, concat_slices.
      rewrite firstn_all2 by (apply batches_cover; lia).
      reflexivity.
    + rewrite Hs in E.
      rewrite for_each_batches_raise with (rowss := rowss) (e := e) in E
        by assumption.
      discriminate.
Qed.

(** C4: in a state the process can reach, whenever a call of
    [embed_and_index] returns, the index holds as many rows as the store
    holds entries, and at every position the row is an embedding the
    model gave for the content of the entry at that position; after a
    call on a non-empty sequence there is one row and one entry per
    chunk, and at position [i] the entry holds the content of chunk [i]
    and the metadata of chunk [i], and the row is an embedding of the
    content of chunk [i]. *)
Theorem index_positions_match_store (chunks : list DocumentChunk)
        (batch_size : nat) (w w' : World) :
  reachable w ->
  embed_and_index chunks batch_size w = (Ok tt, w') ->
  ntotal w' = length (document_store w') /\
  aligned w' /\
  (chunks <> [] ->
   ntotal w' = length chunks /\
   length (document_store w') = length chunks /\
   document_store w' = map store_entry_of chunks /\
   forall i c,
     nth_error chunks i = Some c ->
     exists v d,
       nth_error (faiss_index w') i = Some v /\
       nth_error (document_store w') i = Some d /\
       entry_content d = content c /\
       entry_metadata d = metadata c /\
       embedding_of v (content c)).
Proof.
  intros Hw E.
  assert (Ha : aligned w').
  { replace w' with (snd (embed_and_index chunks batch_size w))
      by (rewrite E; reflexivity).
    apply embed_and_index_aligned, reachable_aligned, Hw. }
  pose proof (Forall2_length Ha) as Hlen. fold (ntotal w') in Hlen.
  split; [exact Hlen|].
  split; [exact Ha|].
  intros Hc.
  pose proof (@embed_and_index_completed chunks batch_size w w' Hc E) as Hs.
  assert (Hn : length (document_store w') = length chunks)
    by (rewrite Hs; apply length_map).
  split; [rewrite Hlen; exact Hn|].
  split; [exact Hn|].
  split; [exact Hs|].
  intros i c Hi.
  assert (Hd : nth_error (document_store w') i = Some (store_entry_of c))
    by (rewrite Hs, nth_error_map, Hi; reflexivity).
  destruct (Forall2_nth_error_r Ha _ Hd) as (v & Hv & Hemb).
  exists v, (store_entry_of c).
  split; [exact Hv|]. split; [exact Hd|].
  split; [reflexivity|]. split; [reflexivity|exact Hemb].
Qed.

End Alignment.

(** ** Retrieval *)

Section FlatIndex.

Context {cap : Capabilities}.

Lemma insert_by_distance_In (p x : Q * Z) (l : list (Q * Z)) :
  In x (insert_by_distance p l) <-> x = p \/ In x l.
Proof.
  induction l as [|q l IH]; cbn.
  - intuition auto.
  - destruct (Qle_bool (fst p) (fst q)); cbn; rewrite ?IH; intuition auto.
Qed.

Lemma insert_by_distance_length (p : Q * Z) (l : list (Q * Z)) :
  length (insert_by_distance p l) = S (length l).
Proof.
  induction l as [|q l IH]; cbn; [reflexivity|].
  destruct (Qle_bool (fst p) (fst q)); cbn; rewrite ?IH; reflexivity.
Qed.

Lemma insert_by_distance_sorted (p : Q * Z) (l : list (Q * Z)) :
  StronglySorted closer l ->
  StronglySorted closer (insert_by_distance p l).
Proof.
  induction 1 as [|q l Hl IH Hq]; cbn.
  - constructor; constructor.
  - destruct (Qle_bool (fst p) (fst q)) eqn:E.
    + apply Qle_bool_iff in E.
      constructor; [constructor; assumption|].
      constructor; [exact E|].
      eapply Forall_impl; [|exact Hq].
      intros r Hr. unfold closer in *. eapply Qle_trans; eassumption.
    + assert (Hlt : (fst q < fst p)%Q).
      { apply Qnot_le_lt. intros H. apply Qle_bool_iff in H. congruence. }
      constructor; [exact IH|].
      apply Forall_forall. intros r Hr.
      apply insert_by_distance_In in Hr. destruct Hr as [->|Hr].
      * apply Qlt_le_weak. exact Hlt.
      * rewrite Forall_forall in Hq. auto.
Qed.

Lemma sort_by_distance_sorted (l : list (Q * Z)) :
  StronglySorted closer (sort_by_distance l).
Proof.
  induction l; cbn; [constructor|].
  apply insert_by_distance_sorted. assumption.
Qed.

Lemma sort_by_distance_In (x : Q * Z) (l : list (Q * Z)) :
  In x (sort_by_distance l) <-> In x l.
Proof.
  induction l as [|p l IH]; cbn; [tauto|].
  rewrite insert_by_distance_In, IH. intuition auto.
Qed.

Lemma sort_by_distance_length (l : list (Q * Z)) :
  length (sort_by_distance l) = length l.
Proof.
  unfold sort_by_distance.
  induction l as [|p l IH]; cbn [fold_right]; [reflexivity|].
  rewrite insert_by_distance_length, IH. reflexivity.
Qed.

Lemma StronglySorted_firstn {A} (R : A -> A -> Prop) (k : nat)
      (l : list A) :
  StronglySorted R l -> StronglySorted R (firstn k l).
Proof.
  intros H. revert k. induction H as [|a l Hl IH Ha]; intros [|k]; cbn;
    try constructor.
  - apply IH.
  - apply Forall_forall. intros x Hx.
    rewrite Forall_forall in Ha. apply Ha.
    eapply (In_nth_error) in Hx. destruct Hx as [n Hn].
    apply nth_error_In with (n := n).
    rewrite nth_error_firstn in Hn.
    destruct (n <? k); [assumption|discriminate].
Qed.

Lemma StronglySorted_filter {A} (R : A -> A -> Prop) (f : A -> bool)
      (l : list A) :
  StronglySorted R l -> StronglySorted R (filter f l).
Proof.
  induction 1 as [|a l Hl IH Ha]; cbn; [constructor|].
  destruct (f a); [|exact IH].
  constructor; [exact IH|].
  apply Forall_forall. intros x Hx. apply filter_In in Hx.
  rewrite Forall_forall in Ha. apply Ha. tauto.
Qed.

Lemma closer_scores (l : list (Q * Z)) :
  StronglySorted closer l -> StronglySorted Qle (map fst l).
Proof.
  induction 1 as [|a l Hl IH Ha]; cbn; constructor; [exact IH|].
  apply Forall_forall. intros x Hx. apply in_map_iff in Hx.
  destruct Hx as (q & <- & Hq). rewrite Forall_forall in Ha.
  apply Ha. exact Hq.
Qed.

(** The labels of the scored rows are the positions [0 .. n-1]. *)
Lemma scored_labels {A} (ds : list A) (n : nat) (p : A * Z) :
  In p (combine ds (map Z.of_nat (seq 0 n))) ->
  (0 <= snd p < Z.of_nat n)%Z.
Proof.
  intros H. destruct p as [d i]. apply in_combine_r in H.
  apply in_map_iff in H. destruct H as (j & <- & Hj).
  apply in_seq in Hj. cbn. lia.
Qed.

(** Asked for no more neighbours than it holds rows, the index returns
    that many pairs, in increasing distance, each with the position of
    a row. *)
Lemma IndexFlatL2_search_row_spec (rows : list Vec) (x : Vec) (k : nat) :
  k <= length rows ->
  let found := IndexFlatL2_search_row rows x k in
  length found = k /\
  StronglySorted closer found /\
  Forall (fun p => (0 <= snd p < Z.of_nat (length rows))%Z) found.
Proof.
  intros Hk. unfold IndexFlatL2_search_row.
  set (scored := combine (map (l2_distance x) rows)
                         (map Z.of_nat (seq 0 (length rows)))).
  assert (Hlen : length (firstn k (sort_by_distance scored)) = k).
  { rewrite length_firstn, sort_by_distance_length.
    unfold scored.
    rewrite length_combine, !length_map, length_seq. lia. }
  rewrite Hlen, Nat.sub_diag. cbn [repeat]. rewrite app_nil_r.
  split; [exact Hlen|]. split.
  - apply StronglySorted_firstn, sort_by_distance_sorted.
  - apply Forall_forall. intros p Hp.
    apply (scored_labels (map (l2_distance x) rows)).
    apply sort_by_distance_In.
    eapply In_nth_error in Hp. destruct Hp as [n Hn].
    rewrite nth_error_firstn in Hn.
    destruct (n <? k); [|discriminate].
    eapply nth_error_In. exact Hn.
Qed.

End FlatIndex.

Section Retrieval.

Context {cap : Capabilities}.

Lemma py_getitem_valid {A} (xs : list A) (i : Z) (d : A) :
  (0 <= i < Z.of_nat (length xs))%Z ->
  py_getitem xs i = Ok (nth (Z.to_nat i) xs d).
Proof.
  intros H. unfold py_getitem.
  destruct (Z.ltb_spec i 0); [lia|].
  destruct (Z.ltb_spec i 0); [lia|].
  rewrite nth_error_nth' with (d := d) by lia.
  reflexivity.
Qed.

Lemma collect_matches_valid (store : list StoreEntry)
      (pairs : list (Q * Z)) :
  Forall (label_ok (length store)) pairs ->
  collect_matches store pairs
  = Ok (map (match_of store) (filter not_sentinel pairs)).
Proof.
  induction 1 as [|[dist idx] pairs Hp _ IH]; cbn [collect_matches filter].
  - reflexivity.
  - unfold not_sentinel at 1. cbn [snd].
    destruct (Z.eqb_spec idx (-1)) as [->|Hne]; cbn [negb].
    + exact IH.
    + destruct Hp as [Hp|Hp]; cbn [snd] in Hp; [contradiction|].
      rewrite py_getitem_valid
        with (d := {| entry_content := []; entry_metadata := [] |})
        by exact Hp.
      rewrite IH. reflexivity.
Qed.

Lemma combine_fst_snd {A B} (l : list (A * B)) :
  combine (map fst l) (map snd l) = l.
Proof.
  induction l as [|[a b] l IH]; cbn; [reflexivity|].
  rewrite IH. reflexivity.
Qed.

Lemma search_empty (query : text) (top_k : nat) (w : World) :
  ntotal w = 0 -> search query top_k w = (Ok [], w).
Proof.
  intros H. unfold search, bind, get_world. rewrite H. reflexivity.
Qed.

(** What [search] computes on a non-empty index once the query has
    been embedded. *)
Lemma search_run (query : text) (top_k : nat) (w : World)
      (qv : Vec) (more : list Vec) :
  0 < ntotal w -> 0 < top_k ->
  encode [query] = Ok (qv :: more) ->
  search query top_k w
  = (match collect_matches
             (document_store w)
             (IndexFlatL2_search_row (faiss_index w) qv
                                     (Nat.min top_k (ntotal w))) with
     | Ok ms => Ok ms
     | Raise e => Raise e
     end, loaded w).
Proof.
  intros Hn Hk He.
  unfold search, bind at 1, get_world.
  destruct (Nat.eqb_spec (ntotal w) 0) as [H0|_]; [lia|].
  unfold bind at 1. cbn [get_embedding_model modify].
  unfold bind at 1, model_encode, lift_result. rewrite He.
  unfold faiss_search.
  destruct (Nat.min top_k (ntotal w)) as [|k] eqn:Ek; [lia|].
  unfold bind, get_world, ret, lift_result.
  cbn [map py_getitem fst snd length Z.of_nat Z.ltb Z.compare Z.to_nat
       nth_error faiss_index document_store].
  rewrite combine_fst_snd.
  unfold loaded, get_embedding_model, modify. cbn [snd].
  destruct (collect_matches _ _); reflexivity.
Qed.

Lemma search_ok (query : text) (top_k : nat) (w : World)
      (qv : Vec) (more : list Vec) :
  0 < ntotal w -> 0 < top_k ->
  ntotal w <= length (document_store w) ->
  encode [query] = Ok (qv :: more) ->
  let found := IndexFlatL2_search_row (faiss_index w) qv
                                      (Nat.min top_k (ntotal w)) in
  search query top_k w
  = (Ok (map (match_of (document_store w)) found), loaded w) /\
  filter not_sentinel found = found.
Proof.
  intros Hn Hk Hs He found.
  destruct (@IndexFlatL2_search_row_spec _ (faiss_index w) qv
              (Nat.min top_k (ntotal w))) as (Hlen & Hsorted & Hlabels);
    [unfold ntotal; lia|].
  fold found in Hlen, Hsorted, Hlabels.
  assert (Hkeep : filter not_sentinel found = found).
  { apply forallb_filter_id. apply forallb_forall. intros p Hp.
    rewrite Forall_forall in Hlabels. specialize (Hlabels p Hp).
    unfold not_sentinel. destruct (Z.eqb_spec (snd p) (-1)); [lia|].
    reflexivity. }
  split; [|exact Hkeep].
  rewrite (search_run query w Hn Hk He). fold found.
  rewrite collect_matches_valid, Hkeep; [reflexivity|].
  eapply Forall_impl; [|exact Hlabels].
  intros p Hp. right. unfold ntotal in Hs. cbn beta in Hp. lia.
Qed.

(** C8: on an index without rows [search] returns the empty list and
    does not raise.  On an index with rows, the query once embedded, it
    asks the index for [min top_k ntotal] neighbours and returns, in the
    order the index gave them, one match per neighbour whose label is
    not [-1], with the content of the entry the label designates and the
    distance as [similarity_score]; the scores are in increasing order
    and there are [min top_k ntotal] of them, hence [ntotal] when
    [top_k] is larger. *)
Theorem search_contract (query : text) (top_k : nat) (w : World) :
  (ntotal w = 0 -> search query top_k w = (Ok [], w)) /\
  (forall store pairs,
      Forall (label_ok (length store)) pairs ->
      collect_matches store pairs
      = Ok (map (match_of store) (filter not_sentinel pairs))) /\
  (forall qv more,
      0 < ntotal w -> 0 < top_k ->
      ntotal w <= length (document_store w) ->
      encode [query] = Ok (qv :: more) ->
      let found := IndexFlatL2_search_row (faiss_index w) qv
                                          (Nat.min top_k (ntotal w)) in
      exists ms,
        search query top_k w = (Ok ms, loaded w) /\
        ms = map (match_of (document_store w))
                 (filter not_sentinel found) /\
        map similarity_score ms = map fst found /\
        StronglySorted Qle (map similarity_score ms) /\
        length ms = Nat.min top_k (ntotal w) /\
        (ntotal w < top_k -> length ms = ntotal w)).
Proof.
  split; [apply search_empty|].
  split; [apply collect_matches_valid|].
  intros qv more Hn Hk Hs He found.
  destruct (search_ok query w Hn Hk Hs He) as [Hrun Hkeep].
  fold found in Hrun, Hkeep.
  destruct (@IndexFlatL2_search_row_spec _ (faiss_index w) qv
              (Nat.min top_k (ntotal w))) as (Hlen & Hsorted & _);
    [unfold ntotal; lia|].
  fold found in Hlen, Hsorted.
  exists (map (match_of (document_store w)) found).
  assert (Hscores : map similarity_score
                        (map (match_of (document_store w)) found)
                    = map fst found).
  { rewrite map_map. apply map_ext. reflexivity. }
  split; [exact Hrun|].
  split; [rewrite Hkeep; reflexivity|].
  split; [exact Hscores|].
  split; [rewrite Hscores; apply closer_scores; exact Hsorted|].
  rewrite length_map, Hlen.
  split; [reflexivity|]. lia.
Qed.

End Retrieval.

(** ** Answer synthesis *)

Section Synthesis.

Context {cap : Capabilities}.

Variable prompt : text.

Lemma attempt_once_success (attempt : nat) (w : World) (t : text) :
  generate_content (llm_calls w) prompt = Ok t ->
  attempt_once prompt attempt w = (Ok (Some (single_line t)), after_call w).
Proof.
  intros E.
  unfold attempt_once, try_except, bind, generate_content_async.
  rewrite E. reflexivity.
Qed.

Lemma attempt_once_backoff (attempt : nat) (w : World) :
  is_rate_limit (generate_content (llm_calls w) prompt) ->
  attempt < 2 ->
  attempt_once prompt attempt w = (Ok None, after_backoff attempt w).
Proof.
  intros (e & E & H429) Ha.
  unfold attempt_once, try_except, bind, generate_content_async.
  rewrite E, H429.
  destruct (Nat.ltb_spec attempt 2) as [_|?]; [|lia].
  cbn. unfold after_backoff, wait_time. cbn.
  rewrite <- app_assoc. reflexivity.
Qed.

Lemma attempt_once_exhausted (attempt : nat) (w : World) :
  is_rate_limit (generate_content (llm_calls w) prompt) ->
  2 <= attempt ->
  attempt_once prompt attempt w = (Ok (Some ERROR_OCCURRED), after_call w).
Proof.
  intros (e & E & H429) Ha.
  unfold attempt_once, try_except, bind, generate_content_async.
  rewrite E, H429.
  destruct (Nat.ltb_spec attempt 2) as [?|_]; [lia|].
  reflexivity.
Qed.

Lemma attempt_once_other_error (attempt : nat) (w : World) :
  is_other_error (generate_content (llm_calls w) prompt) ->
  attempt_once prompt attempt w = (Ok (Some ERROR_OCCURRED), after_call w).
Proof.
  intros (e & E & H429).
  unfold attempt_once, try_except, bind, generate_content_async.
  rewrite E, H429. reflexivity.
Qed.

(** An attempt never raises. *)
Lemma attempt_once_returns (attempt : nat) (w : World) :
  exists r, fst (attempt_once prompt attempt w) = Ok r.
Proof.
  unfold attempt_once, try_except, bind, generate_content_async.
  destruct (generate_content (llm_calls w) prompt) as [t|e].
  - eexists. reflexivity.
  - destruct (Py.contains (lit "429") (str_of_exn e) && (attempt <? 2));
      eexists; reflexivity.
Qed.

Lemma for_return_attempts_return (attempts : list nat) :
  forall w, exists r,
    fst (for_return attempts (attempt_once prompt) w) = Ok r.
Proof.
  induction attempts as [|a attempts IH]; intros w; cbn [for_return].
  - eexists. reflexivity.
  - unfold bind.
    destruct (attempt_once_returns a w) as [r Hr].
    destruct (attempt_once prompt a w) as [[r'|e] w1]; cbn in Hr;
      [|discriminate].
    destruct r' as [b|]; [eexists; reflexivity|apply IH].
Qed.

End Synthesis.

Section SynthesisClaims.

Context {cap : Capabilities}.

Lemma generate_answer_returns (query : text)
      (relevant_chunks : list ClauseMatch) (w : World) :
  exists answer, fst (generate_answer query relevant_chunks w) = Ok answer.
Proof.
  unfold generate_answer.
  destruct relevant_chunks as [|m ms]; [eexists; reflexivity|].
  unfold bind.
  destruct (for_return_attempts_return
              (create_high_accuracy_prompt query (m :: ms)) (seq 0 3) w)
    as [r Hr].
  destruct (for_return _ _ w) as [[r'|e] w1]; cbn in Hr; [|discriminate].
  destruct r'; eexists; reflexivity.
Qed.

(** [generate_answer] on a non-empty list of matches, as the loop over
    the three attempts. *)
Lemma generate_answer_unfold (query : text)
      (relevant_chunks : list ClauseMatch) (w : World) :
  relevant_chunks <> [] ->
  generate_answer query relevant_chunks w
  = bind (for_return
            [0; 1; 2]
            (attempt_once
               (create_high_accuracy_prompt query relevant_chunks)))
         (fun r => match r with
                   | Some answer => ret answer
                   | None => ret RETRIES_FAILED
                   end) w.
Proof.
  intros H. destruct relevant_chunks; [congruence|]. reflexivity.
Qed.

Lemma rate_limit_shift (prompt : text) (w : World) (j : nat) :
  is_rate_limit (generate_content (llm_calls w + j) prompt) ->
  forall w', llm_calls w' = llm_calls w + j ->
             is_rate_limit (generate_content (llm_calls w') prompt).
Proof. intros H w' ->. exact H. Qed.

Lemma other_error_shift (prompt : text) (w : World) (j : nat) :
  is_other_error (generate_content (llm_calls w + j) prompt) ->
  forall w', llm_calls w' = llm_calls w + j ->
             is_other_error (generate_content (llm_calls w') prompt).
Proof. intros H w' ->. exact H. Qed.

(** The run when the call of attempt [a] ends it with the error
    sentence: either it fails for another reason than the rate limit,
    or it is the third call and is rate-limited too. *)
Lemma generate_answer_gives_up (query : text)
      (relevant_chunks : list ClauseMatch) (w : World) (a : nat) :
  let prompt := create_high_accuracy_prompt query relevant_chunks in
  relevant_chunks <> [] ->
  a < 3 ->
  (forall j, j < a ->
             is_rate_limit (generate_content (llm_calls w + j) prompt)) ->
  is_other_error (generate_content (llm_calls w + a) prompt) \/
  (a = 2 /\ is_rate_limit (generate_content (llm_calls w + a) prompt)) ->
  generate_answer query relevant_chunks w
  = (Ok ERROR_OCCURRED, after_call (backed_off a w)).
Proof.
  intros prompt Hne Ha Hbefore Hlast.
  rewrite generate_answer_unfold by assumption.
  fold prompt. unfold bind at 1. cbn [for_return].
  assert (Hend : forall w' n,
             llm_calls w' = llm_calls w + a ->
             (a = 2 -> 2 <= n) ->
             attempt_once prompt n w'
             = (Ok (Some ERROR_OCCURRED), after_call w')).
  { intros w' n Hw' Hn. destruct Hlast as [Ho|[E Hr]].
    - apply attempt_once_other_error.
      eapply other_error_shift; eassumption.
    - apply attempt_once_exhausted; [|auto].
      eapply rate_limit_shift; eassumption. }
  assert (Hlim : forall j w', j < a -> llm_calls w' = llm_calls w + j ->
                   is_rate_limit (generate_content (llm_calls w') prompt)).
  { intros j w' Hj Hw'. eapply rate_limit_shift; [apply Hbefore|]; eauto. }
  destruct a as [|[|[|a]]]; [| | |lia]; cbn [backed_off].
  - unfold bind at 1.
    rewrite Hend by (cbn [after_backoff llm_calls]; intros; lia).
    reflexivity.
  - unfold bind at 1.
    rewrite attempt_once_backoff
      by first [lia | apply (Hlim 0); lia].
    unfold bind at 1.
    rewrite Hend by (cbn [after_backoff llm_calls]; intros; lia).
    reflexivity.
  - unfold bind at 1.
    rewrite attempt_once_backoff
      by first [lia | apply (Hlim 0); lia].
    unfold bind at 1.
    rewrite attempt_once_backoff
      by first [lia | apply (Hlim 1); cbn [after_backoff llm_calls]; lia].
    unfold bind at 1.
    rewrite Hend by (cbn [after_backoff llm_calls]; intros; lia).
    reflexivity.
Qed.

(** The third attempt always leaves the loop with an answer, so the
    [return] that follows the loop in the source is never reached. *)
Lemma third_attempt_decides (prompt : text) (w : World) :
  exists answer, fst (attempt_once prompt 2 w) = Ok (Some answer).
Proof.
  unfold attempt_once, try_except, bind, generate_content_async.
  destruct (generate_content (llm_calls w) prompt) as [t|e].
  - eexists. reflexivity.
  - rewrite andb_false_r. eexists. reflexivity.
Qed.

Lemma three_attempts_decide (prompt : text) (w : World) :
  exists answer,
    fst (for_return [0; 1; 2] (attempt_once prompt) w) = Ok (Some answer).
Proof.
  cbn [for_return]. unfold bind at 1.
  destruct (attempt_once_returns prompt 0 w) as [r0 H0].
  destruct (attempt_once prompt 0 w) as [[r0'|e] w0]; cbn in H0;
    [|discriminate].
  destruct r0' as [a|]; [exists a; reflexivity|].
  unfold bind at 1.
  destruct (attempt_once_returns prompt 1 w0) as [r1 H1].
  destruct (attempt_once prompt 1 w0) as [[r1'|e] w1]; cbn in H1;
    [|discriminate].
  destruct r1' as [a|]; [exists a; reflexivity|].
  unfold bind at 1.
  destruct (third_attempt_decides prompt w1) as [a Ha].
  destruct (attempt_once prompt 2 w1) as [[r2|e] w2]; cbn in Ha;
    [|discriminate].
  inversion Ha; subst r2. exists a. reflexivity.
Qed.

(** C3: [generate_answer] never raises.  On a non-empty list of matches,
    when every call of the model is rate-limited it calls the model three
    times, sleeping [1 + jitter] seconds after the first call and
    [2 + jitter] seconds after the second, at least 3 seconds in all when
    the jitter is in [0, 1), and returns the error sentence; when a call
    fails with a message without [429], the calls before it having been
    rate-limited, it returns the error sentence after that call, with no
    further call and no further sleep. *)
Theorem generate_answer_retry_policy (query : text)
        (relevant_chunks : list ClauseMatch) (w : World) :
  let prompt := create_high_accuracy_prompt query relevant_chunks in
  let run := generate_answer query relevant_chunks w in
  (exists answer, fst run = Ok answer) /\
  (relevant_chunks <> [] ->
   (forall k, is_rate_limit (generate_content k prompt)) ->
   let wait0 := wait_time 0 w in
   let wait1 := wait_time 1 (after_backoff 0 w) in
   fst run = Ok ERROR_OCCURRED /\
   llm_calls (snd run) = llm_calls w + 3 /\
   log (snd run)
   = log w ++ [Called; Slept wait0; Called; Slept wait1; Called] /\
   (wait0 == 1 + uniform (rng_draws w))%Q /\
   (wait1 == 2 + uniform (S (rng_draws w)))%Q /\
   ((forall k, 0 <= uniform k < 1)%Q ->
    (1 <= wait0 < 2 /\ 2 <= wait1 < 3 /\ 3 <= wait0 + wait1)%Q)) /\
  (relevant_chunks <> [] ->
   forall a,
     a < 3 ->
     (forall j, j < a ->
                is_rate_limit (generate_content (llm_calls w + j) prompt)) ->
     is_other_error (generate_content (llm_calls w + a) prompt) ->
     fst run = Ok ERROR_OCCURRED /\
     llm_calls (snd run) = llm_calls w + a + 1 /\
     length (slept (snd run)) = length (slept w) + a /\
     exists earlier, log (snd run) = log w ++ earlier ++ [Called]).
Proof.
  intros prompt run.
  split; [apply generate_answer_returns|].
  split.
  - intros Hne Hlimited wait0 wait1.
    unfold run.
    rewrite (@generate_answer_gives_up query relevant_chunks w 2)
      by (auto; lia).
    cbn [backed_off fst snd after_call after_backoff llm_calls log
         rng_draws].
    split; [reflexivity|]. split; [lia|].
    split; [rewrite <- !app_assoc; reflexivity|].
    assert (H0 : (wait0 == 1 + uniform (rng_draws w))%Q)
      by (unfold wait0, wait_time; cbn; reflexivity).
    assert (H1 : (wait1 == 2 + uniform (S (rng_draws w)))%Q)
      by (unfold wait1, wait_time; cbn; reflexivity).
    split; [exact H0|]. split; [exact H1|].
    intros Hj.
    pose proof (Hj (rng_draws w)) as [? ?].
    pose proof (Hj (S (rng_draws w))) as [? ?].
    rewrite H0, H1. repeat split; lra.
  - intros Hne a Ha Hbefore Hother.
    unfold run.
    rewrite (@generate_answer_gives_up query relevant_chunks w a)
      by auto.
    cbn [fst snd].
    split; [reflexivity|].
    destruct a as [|[|[|a]]]; [| | |lia];
      cbn [backed_off after_call after_backoff llm_calls log];
      (split; [lia|]); unfold slept;
      cbn [backed_off after_call after_backoff llm_calls log];
      rewrite ?flat_map_app; cbn [flat_map app]; rewrite ?length_app;
      cbn [length app]; (split; [lia|]).
    + exists []. reflexivity.
    + eexists [_; _]. rewrite <- !app_assoc. reflexivity.
    + eexists [_; _; _; _]. rewrite <- !app_assoc. reflexivity.
Qed.

End SynthesisClaims.

(** ** Answering a list of questions *)

Section Queries.

Context {cap : Capabilities}.

Lemma process_one_returns (query : text) (w : World) :
  ntotal w <= length (document_store w) ->
  retrievable w query ->
  exists answer, fst (_process_one query w) = Ok answer.
Proof.
  intros Hs Hq. unfold _process_one, bind.
  destruct (Nat.eq_dec (ntotal w) 0) as [H0|Hn].
  - rewrite search_empty by assumption. apply generate_answer_returns.
  - destruct Hq as [H0|(qv & more & He)]; [contradiction|].
    destruct (@search_ok _ query 8 w qv more) as [-> _];
      try assumption; try lia.
    apply generate_answer_returns.
Qed.

Lemma process_loop_answers (queries : list text) :
  forall answers w,
    process_loop queries answers w
    = match process_loop queries [] w with
      | (Ok rs, w') => (Ok (answers ++ rs), w')
      | (Raise e, w') => (Raise e, w')
      end.
Proof.
  induction queries as [|q queries IH]; intros answers w;
    cbn [process_loop].
  - cbn. rewrite app_nil_r. reflexivity.
  - unfold bind.
    destruct (_process_one q w) as [[a|e] w1]; [|reflexivity].
    rewrite (IH (answers ++ [a])), (IH ([] ++ [a])).
    destruct (process_loop queries [] w1) as [[rs|e] w2]; [|reflexivity].
    rewrite <- app_assoc. reflexivity.
Qed.

Lemma process_all_queries_cons (q : text) (rest : list text)
      (a : text) (w w1 : World) :
  _process_one q w = (Ok a, w1) ->
  process_all_queries (q :: rest) w
  = match process_all_queries rest w1 with
    | (Ok rs, w') => (Ok (a :: rs), w')
    | (Raise e, w') => (Raise e, w')
    end.
Proof.
  intros E. unfold process_all_queries. cbn [process_loop].
  unfold bind. rewrite E. cbn [app].
  apply (process_loop_answers rest [a] w1).
Qed.

Lemma retrievable_same_index (w w' : World) (query : text) :
  same_index w w' -> retrievable w query -> retrievable w' query.
Proof.
  intros [Hi _] [H|H]; [left|right; exact H].
  unfold ntotal in *. congruence.
Qed.

(** C5: once the index is in place and the queries can be embedded,
    whatever the generative model does, [process_all_queries] returns
    one answer per question, and the answer at position [i] is what
    [_process_one] returns for question [i] in the state left by the
    questions before it. *)
Theorem answers_follow_questions (queries : list text) (w : World) :
  ntotal w <= length (document_store w) ->
  (forall q, In q queries -> retrievable w q) ->
  exists answers,
    fst (process_all_queries queries w) = Ok answers /\
    length answers = length queries /\
    forall i q,
      nth_error queries i = Some q ->
      exists a,
        nth_error answers i = Some a /\
        fst (_process_one
               q (snd (process_all_queries (firstn i queries) w)))
        = Ok a.
Proof.
  revert w. induction queries as [|q rest IH]; intros w Hs Hq.
  - exists []. repeat split; try reflexivity.
    intros [|i] q H; discriminate.
  - destruct (process_one_returns Hs (Hq q (or_introl eq_refl)))
      as [a Ha].
    destruct (_process_one q w) as [r w1] eqn:E. cbn in Ha. subst r.
    assert (Hsame : same_index w w1).
    { pose proof (preserves_process_one q w) as H.
      rewrite E in H. exact H. }
    destruct (IH w1) as (answers & Hrun & Hlen & Hpos).
    { destruct Hsame as [Hi Hd]. unfold ntotal. rewrite Hi, Hd. exact Hs. }
    { intros q' Hq'. eapply retrievable_same_index; [exact Hsame|].
      apply Hq. right. exact Hq'. }
    exists (a :: answers).
    rewrite process_all_queries_cons with (a := a) (w1 := w1) by exact E.
    destruct (process_all_queries rest w1) as [[rs|e] w2] eqn:Erest;
      cbn in Hrun; [|discriminate].
    inversion Hrun; subst rs.
    split; [reflexivity|]. split; [cbn; congruence|].
    intros [|i] q' Hi; cbn in Hi.
    + inversion Hi; subst q'. exists a. split; [reflexivity|].
      cbn [firstn]. unfold process_all_queries at 1. cbn [process_loop].
      unfold ret. cbn [snd]. rewrite E. reflexivity.
    + destruct (Hpos i q' Hi) as (a' & Ha' & Hone).
      exists a'. split; [exact Ha'|].
      cbn [firstn].
      rewrite process_all_queries_cons with (a := a) (w1 := w1) by exact E.
      destruct (process_all_queries (firstn i rest) w1) as [[rs|e] w3];
        exact Hone.
Qed.

End Queries.

(* ================================================================== *)
(** * Part III: the statements on concrete runs                        *)
(* ================================================================== *)

(** ** The chunker *)

(** C6 at [warranty_text]: its first sentence is a piece of the split, is
    kept, and is part of a chunk. *)
Lemma first_sentence_is_kept :
  let seg := lit "The warranty lasts 2 years." in
  In seg (Py.sentence_split (Py.replace_newlines warranty_text)) /\
  (In (Py.strip seg) (kept_sentences warranty_text)
   <-> 10 < length (Py.strip seg)).
Proof.
  intros seg.
  assert (H : In seg (Py.sentence_split (Py.replace_newlines warranty_text)))
    by (left; reflexivity).
  split; [exact H|].
  exact (proj1 (sentence_kept_iff_longer_than_10 warranty_text seg H)).
Defined.

(** C6 as the claim words it fails on a piece of exactly 10 characters:
    the piece is not shorter than 10 characters and it is dropped, no
    chunk is produced. *)
Lemma piece_of_10_characters_is_dropped :
  In ten_characters
     (Py.sentence_split (Py.replace_newlines ten_characters)) /\
  length (Py.strip ten_characters) = 10 /\
  ~ length (Py.strip ten_characters) < 10 /\
  ~ In (Py.strip ten_characters) (kept_sentences ten_characters) /\
  sentence_aware_chunking doc_processor ten_characters source_metadata = [].
Proof.
  split; [left; reflexivity|].
  split; [reflexivity|].
  split; [intros H; vm_compute in H; lia|].
  split; [intros []|reflexivity].
Defined.

(** C7 at [long_text]: the sentence of 300 words is alone in its chunk. *)
Lemma long_sentence_is_alone :
  In long_sentence (kept_sentences long_text) /\
  256 < word_count long_sentence /\
  In [long_sentence] (sentence_groups doc_processor long_text) /\
  In long_sentence
     (map content
          (sentence_aware_chunking doc_processor long_text source_metadata)).
Proof.
  assert (H1 : In long_sentence (kept_sentences long_text))
    by (left; vm_compute; reflexivity).
  assert (H2 : 256 < word_count long_sentence)
    by (apply Nat.ltb_lt; vm_compute; reflexivity).
  destruct (chunk_word_budget long_text source_metadata)
    as (_ & _ & _ & H).
  destruct (H long_sentence H1 H2) as (Ha & _ & Hb).
  repeat split; assumption.
Defined.

(** C10 at [long_text]. *)
Lemma long_text_starts_with_empty_chunk :
  kept_sentences long_text = [long_sentence; lit "This one is short."] /\
  256 < word_count long_sentence /\
  exists c0 c1 tail,
    sentence_aware_chunking doc_processor long_text source_metadata
    = c0 :: c1 :: tail /\
    content c0 = [] /\ chunk_id c0 = Some (VInt 0) /\
    content c1 = long_sentence /\ chunk_id c1 = Some (VInt 1).
Proof.
  assert (H1 : kept_sentences long_text
               = [long_sentence; lit "This one is short."])
    by (vm_compute; reflexivity).
  assert (H2 : 256 < word_count long_sentence)
    by (apply Nat.ltb_lt; vm_compute; reflexivity).
  split; [exact H1|]. split; [exact H2|].
  exact (@leading_long_sentence_gives_empty_chunk
           long_text source_metadata long_sentence
           [lit "This one is short."] H1 H2 eq_refl).
Defined.

(** ** The indexing operation *)

Lemma toy_encode_rows (texts : list text) (rows : list Q) :
  toy_encode texts = Ok rows -> length rows = length texts.
Proof.
  unfold toy_encode.
  destruct (existsb (Py.contains (lit "<bad>")) texts); [discriminate|].
  intros H. inversion H. apply length_map.
Qed.

(** C1 as the claim words it fails once the index holds a document: the
    call with no chunk returns and the three rows and three entries of the
    call before it are still there. *)
Lemma empty_call_keeps_previous_index :
  let T := toy always_rate_limited in
  let w1 := snd (embed_and_index (cap := T) three_chunks 8 initial_world) in
  let run := embed_and_index (cap := T) [] 8 w1 in
  fst run = Ok tt /\
  ntotal (snd run) = 3 /\
  length (document_store (snd run)) = 3 /\
  ntotal (snd run) <> 0.
Proof.
  vm_compute. repeat split; discriminate.
Defined.

(** C2 as the claim words it fails when the encoder raises on the second
    batch: the exception leaves the call and the eight rows and entries of
    the first batch stay in the index and the store. *)
Lemma failed_batch_leaves_partial_index :
  let T := toy always_rate_limited in
  let run :=
    embed_and_index (cap := T) nine_chunks default_batch_size initial_world in
  fst run = Raise (Exn (lit "encoder failure")) /\
  ntotal (snd run) = 8 /\
  length (document_store (snd run)) = 8 /\
  faiss_index (snd run) <> [] /\
  document_store (snd run) <> [].
Proof.
  vm_compute. repeat split; discriminate.
Defined.

(** C2, as the code has it, at [nine_chunks]: the second batch fails. *)
Lemma nine_chunks_keep_first_batch :
  let T := toy always_rate_limited in
  exists w',
    embed_and_index (cap := T) nine_chunks 8 initial_world
    = (Raise (Exn (lit "encoder failure")), w') /\
    faiss_index w' = concat [first_batch_rows] /\
    document_store w' = map store_entry_of (firstn (1 * 8) nine_chunks) /\
    length (document_store w') = 1 * 8 /\
    (1 = 0 -> faiss_index w' = [] /\ document_store w' = []).
Proof.
  intros T.
  apply (@embed_and_index_failure_keeps_earlier_batches
           T nine_chunks 8 1 [first_batch_rows]
           (Exn (lit "encoder failure")) initial_world).
  - lia.
  - cbn. lia.
  - constructor; [vm_compute; reflexivity|constructor].
  - vm_compute. reflexivity.
Defined.

(** C4 at [ten_chunks], indexed in two batches from the state at import
    time: the entry at position 9, in the second batch, holds the content
    and the metadata of the tenth chunk. *)
Lemma ten_chunks_are_aligned :
  let T := toy always_rate_limited in
  let w' := snd (embed_and_index (cap := T) ten_chunks 8 initial_world) in
  Py.range0 (length ten_chunks) 8 = [0; 8] /\
  ntotal w' = length (document_store w') /\
  aligned w' /\
  ntotal w' = 10 /\
  exists v d,
    nth_error (faiss_index w') 9 = Some v /\
    nth_error (document_store w') 9 = Some d /\
    entry_content d = lit "jjjjjjjjjj" /\
    entry_metadata d = [(lit "chunk_id", VInt 9)] /\
    embedding_of v (lit "jjjjjjjjjj").
Proof.
  intros T w'.
  destruct (@index_positions_match_store
              T toy_encode_rows ten_chunks 8 initial_world w')
    as (H1 & H2 & H3).
  - apply reachable_initial.
  - vm_compute. reflexivity.
  - destruct H3 as (Hn & _ & _ & Hpos); [discriminate|].
    split; [reflexivity|]. split; [exact H1|]. split; [exact H2|].
    split; [exact Hn|].
    exact (Hpos 9 (plain_chunk "jjjjjjjjjj" 9) eq_refl).
Defined.

(** C9 at [ten_chunks] with the encoder that never raises: the default
    batch size cuts the ten chunks into the batches that start at 0 and
    at 8, the single batch starts at 0 and holds them all, and the two
    calls leave the same index and the same store. *)
Lemma ten_chunks_two_batches_or_one :
  let T := toy_pure always_rate_limited in
  Py.range0 (length ten_chunks) default_batch_size = [0; 8] /\
  Py.range0 (length ten_chunks) (length ten_chunks) = [0] /\
  embed_and_index (cap := T) ten_chunks default_batch_size initial_world
  = embed_and_index (cap := T) ten_chunks (length ten_chunks)
                    initial_world /\
  embed_and_index (cap := T) ten_chunks default_batch_size initial_world
  = (Ok tt,
     with_index (map toy_embed (map content ten_chunks))
                (map store_entry_of ten_chunks) (loaded initial_world)).
Proof.
  intros T.
  split; [reflexivity|]. split; [reflexivity|].
  apply (@batch_boundaries_have_no_effect T toy_embed ten_chunks
                                          initial_world).
  - intros texts. reflexivity.
  - discriminate.
Defined.

(** ** Retrieval *)

(** C8 on the index of [three_chunks]: asked for 8 neighbours, [search]
    returns the 3 rows, closest first. *)
Lemma search_three_chunks :
  let T := toy always_rate_limited in
  let w := snd (embed_and_index (cap := T) three_chunks 8 initial_world) in
  exists ms,
    search (cap := T) (lit "abcd") 8 w = (Ok ms, loaded w) /\
    map match_content ms = [lit "bbbbb"; lit "ccc"; lit "a"] /\
    StronglySorted Qle (map similarity_score ms) /\
    length ms = ntotal w.
Proof.
  intros T w.
  destruct (search_contract (cap := T) (lit "abcd") 8 w) as (_ & _ & H).
  destruct (H (4%Q) [] ltac:(vm_compute; lia) ltac:(lia)
              ltac:(vm_compute; lia) eq_refl)
    as (ms & Hrun & Hms & _ & Hsorted & _ & Hlen).
  exists ms. split; [exact Hrun|].
  split; [rewrite Hms; vm_compute; reflexivity|].
  split; [exact Hsorted|].
  apply Hlen. vm_compute. lia.
Defined.

(** ** Answer synthesis *)

(** C3 with a model that is always rate-limited: three calls, sleeps of
    3/2 and 5/2 seconds between them, the error sentence. *)
Lemma always_rate_limited_run :
  let T := toy always_rate_limited in
  let run := generate_answer (cap := T) (lit "How long?") one_match
                             initial_world in
  fst run = Ok ERROR_OCCURRED /\
  llm_calls (snd run) = 3 /\
  log (snd run)
  = [Called; Slept (wait_time 0 initial_world); Called;
     Slept (wait_time 1 (after_backoff 0 initial_world)); Called].
Proof.
  intros T run.
  destruct (generate_answer_retry_policy
              (cap := T) (lit "How long?") one_match initial_world)
    as (_ & H & _).
  destruct H as (H1 & H2 & H3 & _).
  - discriminate.
  - intros k. eexists. split; reflexivity.
  - repeat split; assumption.
Defined.

(** C5 with a model whose second call fails: the second answer is the
    error sentence, the first and the third are the model's. *)
Lemma three_questions_three_answers :
  let T := toy second_call_fails in
  let w := snd (embed_and_index (cap := T) three_chunks 8 initial_world) in
  exists answers,
    fst (process_all_queries (cap := T) three_questions w) = Ok answers /\
    length answers = length three_questions /\
    answers = [lit "It lasts 2 years."; ERROR_OCCURRED;
               lit "It lasts 2 years."].
Proof.
  intros T w.
  destruct (@answers_follow_questions T three_questions w)
    as (answers & Hrun & Hlen & _).
  - vm_compute. lia.
  - intros q Hq. right.
    destruct Hq as [<-|[<-|[<-|[]]]]; eexists; eexists;
      vm_compute; reflexivity.
  - exists answers. split; [exact Hrun|]. split; [exact Hlen|].
    assert (E : fst (process_all_queries (cap := T) three_questions w)
                = Ok [lit "It lasts 2 years."; ERROR_OCCURRED;
                      lit "It lasts 2 years."])
      by (vm_compute; reflexivity).
    rewrite E in Hrun. inversion Hrun. reflexivity.
Defined.

(* ================================================================== *)
(** * Part IV: further properties of the code                          *)
(* ================================================================== *)

(** ** Words and whitespace *)

Lemma split_go_sep_app (c : ascii) (a b cur : text) :
  Py.is_space c = true ->
  Py.split_go cur (a ++ c :: b) = Py.split_go cur a ++ Py.split_go [] b.
Proof.
  intros Hc. revert cur; induction a as [|x a IH]; intros cur.
  - cbn [app Py.split_go]. rewrite Hc. destruct cur; reflexivity.
  - cbn [app Py.split_go].
    destruct (Py.is_space x).
    + destruct cur; rewrite IH; reflexivity.
    + apply IH.
Qed.

Lemma split_go_trailing_spaces (sp a cur : text) :
  Forall (fun c => Py.is_space c = true) sp ->
  Py.split_go cur (a ++ sp) = Py.split_go cur a.
Proof.
  intros Hsp. revert a cur.
  induction Hsp as [|c sp Hc _ IH]; intros a cur.
  - rewrite app_nil_r. reflexivity.
  - rewrite split_go_sep_app by assumption.
    specialize (IH [] []). cbn [app] in IH. rewrite IH.
    cbn. rewrite app_nil_r. reflexivity.
Qed.

Lemma lstrip_decompose (s : text) :
  exists sp,
    s = sp ++ Py.lstrip s /\ Forall (fun c => Py.is_space c = true) sp.
Proof.
  induction s as [|c s (sp & E & Hsp)]; cbn [Py.lstrip].
  - exists []. split; [reflexivity|constructor].
  - destruct (Py.is_space c) eqn:Hc.
    + exists (c :: sp). split; [cbn; congruence|constructor; assumption].
    + exists []. split; [reflexivity|constructor].
Qed.

Lemma rstrip_decompose (s : text) :
  exists sp,
    s = Py.rstrip s ++ sp /\ Forall (fun c => Py.is_space c = true) sp.
Proof.
  unfold Py.rstrip.
  destruct (lstrip_decompose (rev s)) as (sp & E & Hsp).
  exists (rev sp). split.
  - rewrite <- rev_app_distr, <- E, rev_involutive. reflexivity.
  - apply Forall_rev. assumption.
Qed.

Lemma split_lstrip (s : text) : Py.split (Py.lstrip s) = Py.split s.
Proof.
  unfold Py.split.
  induction s as [|c s IH]; cbn [Py.lstrip Py.split_go]; [reflexivity|].
  destruct (Py.is_space c) eqn:Hc; [exact IH|].
  cbn [Py.split_go]. rewrite Hc. reflexivity.
Qed.

Lemma split_rstrip (s : text) : Py.split (Py.rstrip s) = Py.split s.
Proof.
  destruct (rstrip_decompose s) as (sp & E & Hsp).
  rewrite E at 2. unfold Py.split.
  rewrite split_go_trailing_spaces by assumption. reflexivity.
Qed.

Lemma split_strip (s : text) : Py.split (Py.strip s) = Py.split s.
Proof. unfold Py.strip. rewrite split_rstrip. apply split_lstrip. Qed.

Lemma newline_is_space : Py.is_space Py.newline = true.
Proof. reflexivity. Qed.

Lemma split_go_replace_newlines (s cur : text) :
  Py.split_go cur (Py.replace_newlines s) = Py.split_go cur s.
Proof.
  unfold Py.replace_newlines.
  revert cur; induction s as [|c s IH]; intros cur; [reflexivity|].
  cbn [map Py.split_go].
  destruct (Ascii.eqb_spec c Py.newline) as [->|Hne].
  - change (Py.is_space Py.space) with true.
    rewrite newline_is_space. cbn iota.
    destruct cur; rewrite IH; reflexivity.
  - destruct (Py.is_space c); [destruct cur|]; rewrite IH; reflexivity.
Qed.

Lemma split_go_nonempty (s cur : text) :
  cur <> [] -> Py.split_go cur s <> [].
Proof.
  revert cur; induction s as [|c s IH]; intros cur Hcur; cbn [Py.split_go].
  - destruct cur; [congruence|discriminate].
  - destruct (Py.is_space c).
    + destruct cur; [congruence|discriminate].
    + apply IH. discriminate.
Qed.

Lemma split_go_has_word (s cur : text) (c : ascii) :
  In c s -> Py.is_space c = false -> Py.split_go cur s <> [].
Proof.
  revert cur; induction s as [|x s IH]; intros cur Hin Hc; [contradiction|].
  cbn [Py.split_go].
  destruct Hin as [->|Hin].
  - rewrite Hc. apply split_go_nonempty. discriminate.
  - destruct (Py.is_space x).
    + destruct cur; [apply IH; assumption|discriminate].
    + apply IH; assumption.
Qed.

Lemma lstrip_head (s : text) (c : ascii) (t : text) :
  Py.lstrip s = c :: t -> Py.is_space c = false.
Proof.
  induction s as [|x s IH]; cbn [Py.lstrip]; [discriminate|].
  destruct (Py.is_space x) eqn:Hx; [exact IH|].
  intros E. inversion E; subst. exact Hx.
Qed.

(** A trimmed text that is not empty holds a word. *)
Lemma strip_has_word (s : text) :
  Py.strip s <> [] -> 1 <= word_count (Py.strip s).
Proof.
  unfold Py.strip, Py.rstrip, word_count, Py.split. intros H.
  destruct (Py.lstrip (rev (Py.lstrip s))) as [|c t] eqn:E;
    [cbn in H; congruence|].
  apply lstrip_head in E.
  assert (Hne : Py.split_go [] (rev (c :: t)) <> []).
  { apply (@split_go_has_word _ [] c); [|exact E].
    apply in_rev. rewrite rev_involutive. left. reflexivity. }
  destruct (Py.split_go [] (rev (c :: t))); [congruence|cbn; lia].
Qed.

Lemma split_go_words (s cur : text) :
  Forall (fun c => Py.is_space c = false) cur ->
  Forall is_word (Py.split_go cur s).
Proof.
  revert cur; induction s as [|c s IH]; intros cur Hcur; cbn [Py.split_go].
  - destruct cur as [|x cur]; constructor; [|constructor].
    split; [intros E; apply (f_equal (@length _)) in E;
            rewrite length_rev in E; discriminate|].
    apply Forall_rev. assumption.
  - destruct (Py.is_space c) eqn:Hc.
    + destruct cur as [|x cur]; [apply IH; constructor|].
      constructor; [|apply IH; constructor].
      split; [intros E; apply (f_equal (@length _)) in E;
              rewrite length_rev in E; discriminate|].
      apply Forall_rev. assumption.
    + apply IH. constructor; assumption.
Qed.

Lemma split_go_word (w cur : text) :
  Forall (fun c => Py.is_space c = false) w ->
  rev cur ++ w <> [] ->
  Py.split_go cur w = [rev cur ++ w].
Proof.
  intros Hw. revert cur; induction Hw as [|c w Hc _ IH]; intros cur Hne.
  - rewrite app_nil_r in *. cbn. destruct cur; [cbn in Hne; congruence|].
    reflexivity.
  - cbn [Py.split_go]. rewrite Hc. rewrite IH.
    + cbn [rev]. rewrite <- app_assoc. reflexivity.
    + cbn [rev]. rewrite <- app_assoc. cbn.
      intros E. apply (f_equal (@length _)) in E.
      rewrite length_app in E. cbn in E. lia.
Qed.

Lemma split_word (w : text) : is_word w -> Py.split w = [w].
Proof. intros [Hne Hw]. apply (@split_go_word w []); assumption. Qed.

(** Splitting what was joined by single spaces gives the words back. *)
Lemma split_join_words (ws : list text) :
  Forall is_word ws -> Py.split (Py.join [Py.space] ws) = ws.
Proof.
  induction 1 as [|w ws Hw Hws IH]; [reflexivity|].
  destruct ws as [|w' ws].
  - apply split_word. assumption.
  - change (Py.join [Py.space] (w :: w' :: ws))
      with (w ++ Py.space :: Py.join [Py.space] (w' :: ws)).
    unfold Py.split in *.
    rewrite split_go_space_app, IH.
    change (Py.split_go [] w) with (Py.split w).
    rewrite split_word by assumption. reflexivity.
Qed.

Lemma split_join_parts (parts : list text) :
  Py.split (Py.join [Py.space] parts) = words_of parts.
Proof.
  unfold words_of.
  induction parts as [|p [|q parts] IH].
  - reflexivity.
  - cbn. rewrite app_nil_r. reflexivity.
  - change (Py.join [Py.space] (p :: q :: parts))
      with (p ++ Py.space :: Py.join [Py.space] (q :: parts)).
    unfold Py.split in *.
    rewrite split_go_space_app, IH. reflexivity.
Qed.

(** ** The sentence split and the words of the text *)

Lemma words_of_app (a b : list text) :
  words_of (a ++ b) = words_of a ++ words_of b.
Proof. unfold words_of. rewrite map_app, concat_app. reflexivity. Qed.

Lemma words_of_concat (gs : list (list text)) :
  words_of (concat gs) = concat (map words_of gs).
Proof.
  induction gs as [|g gs IH]; [reflexivity|].
  cbn [concat map]. rewrite words_of_app, IH. reflexivity.
Qed.

Lemma sentence_split_go_words (s : text) :
  forall after_mark in_sep cur,
    (in_sep = true -> cur = []) ->
    words_of (Py.sentence_split_go after_mark in_sep cur s)
    = Py.split (rev cur ++ s).
Proof.
  unfold words_of.
  induction s as [|c s IH]; intros after_mark in_sep cur Hsep;
    cbn [Py.sentence_split_go].
  - cbn. rewrite !app_nil_r. reflexivity.
  - destruct (Py.is_space c) eqn:Hc.
    + destruct in_sep.
      * rewrite (Hsep eq_refl). rewrite IH by reflexivity.
        cbn [rev app]. unfold Py.split. cbn [Py.split_go].
        rewrite Hc. reflexivity.
      * destruct after_mark.
        -- cbn [map concat]. rewrite IH by reflexivity. cbn [rev app].
           unfold Py.split. rewrite split_go_sep_app by assumption.
           reflexivity.
        -- rewrite IH by discriminate. cbn [rev].
           rewrite <- app_assoc. reflexivity.
    + rewrite IH by discriminate. cbn [rev].
      rewrite <- app_assoc. reflexivity.
Qed.

(** X1: the pieces [re.split] cuts the text into hold, in order, exactly
    the words of the text: a cut falls on whitespace and nothing but
    whitespace is removed. *)
Theorem sentence_split_keeps_every_word (txt : text) :
  words_of (Py.sentence_split (Py.replace_newlines txt)) = Py.split txt.
Proof.
  unfold Py.sentence_split.
  rewrite sentence_split_go_words by discriminate.
  cbn [rev app]. unfold Py.split. apply split_go_replace_newlines.
Qed.

Lemma words_of_kept (pieces : list text) :
  Forall (fun seg => 10 < length (Py.strip seg)) pieces ->
  words_of (map Py.strip
                (filter (fun s => 10 <? length (Py.strip s)) pieces))
  = words_of pieces.
Proof.
  unfold words_of.
  induction 1 as [|p pieces Hp _ IH]; [reflexivity|].
  cbn [filter]. apply Nat.ltb_lt in Hp. rewrite Hp.
  cbn [map concat]. rewrite IH, split_strip. reflexivity.
Qed.

(** X2: the words of the chunk contents, in order, are the words of the
    kept sentences; when every piece of the split is long enough to be
    kept, they are the words of the whole text. *)
Theorem chunks_hold_the_words_of_the_text (txt : text) (meta : dict) :
  let chunks := sentence_aware_chunking doc_processor txt meta in
  words_of (map content chunks) = words_of (kept_sentences txt) /\
  (Forall (fun seg => 10 < length (Py.strip seg))
          (Py.sentence_split (Py.replace_newlines txt)) ->
   words_of (map content chunks) = Py.split txt).
Proof.
  intros chunks.
  assert (H : words_of (map content chunks) = words_of (kept_sentences txt)).
  { unfold chunks. rewrite chunking_contents.
    destruct (sentence_groups_spec doc_processor txt) as [_ <-].
    rewrite words_of_concat. unfold words_of at 1.
    rewrite map_map. f_equal. apply map_ext. intros g.
    apply split_join_parts. }
  split; [exact H|].
  intros Hall. rewrite H. unfold kept_sentences.
  rewrite words_of_kept by assumption.
  apply sentence_split_keeps_every_word.
Qed.

(** ** The metadata of the chunks *)

Lemma dict_get_absent (d : dict) (k : text) :
  ~ In k (map fst d) -> dict_get d k = None.
Proof.
  induction d as [|[k0 v0] d IH]; cbn; intros H; [reflexivity|].
  destruct (text_eqb k k0) eqn:E.
  - apply text_eqb_eq in E. subst. tauto.
  - apply IH. tauto.
Qed.

(** [{**d, **extra}] read at a key: the value of [extra] when it has the
    key, the value of [d] otherwise. *)
Lemma dict_get_update_unique (extra : dict) :
  NoDup (map fst extra) ->
  forall (d : dict) (k : text),
    dict_get (dict_update d extra) k
    = match dict_get extra k with
      | Some v => Some v
      | None => dict_get d k
      end.
Proof.
  unfold dict_update.
  induction extra as [|[k0 v0] extra IH]; intros Hnd d k; cbn [fold_left].
  - reflexivity.
  - inversion Hnd as [|? ? Hout Hnd']; subst.
    rewrite IH by assumption. cbn [fst snd dict_get].
    destruct (text_eqb k k0) eqn:E.
    + apply text_eqb_eq in E. subst k0.
      rewrite dict_get_absent by assumption.
      rewrite dict_get_set.
      replace (text_eqb k k) with true
        by (symmetry; apply text_eqb_eq; reflexivity).
      reflexivity.
    + rewrite dict_get_set, E. reflexivity.
Qed.

Lemma chunking_loop_metadata (self : DocumentProcessor) (meta : dict)
      (sentences : list text) :
  forall chunks current n,
    (forall i c, nth_error chunks i = Some c ->
                 metadata c
                 = dict_update [(lit "chunk_id", VInt (Z.of_nat i))] meta) ->
    forall i c,
      nth_error (fst (fst (chunking_loop self meta sentences chunks
                                         current n))) i = Some c ->
      metadata c = dict_update [(lit "chunk_id", VInt (Z.of_nat i))] meta.
Proof.
  induction sentences as [|s rest IH]; intros chunks current n Hinv;
    cbn [chunking_loop].
  - exact Hinv.
  - destruct (n + length (Py.split s) <=? chunk_size self).
    + apply IH. exact Hinv.
    + apply IH. intros i c Hi.
      destruct (Nat.lt_ge_cases i (length chunks)) as [Hlt|Hge].
      * rewrite nth_error_app1 in Hi by assumption. apply Hinv. exact Hi.
      * rewrite nth_error_app2 in Hi by assumption.
        destruct (i - length chunks) as [|j] eqn:Ej; cbn in Hi.
        -- inversion Hi; subst c. cbn [close_chunk metadata].
           replace (length chunks) with i by lia. reflexivity.
        -- destruct j; discriminate.
Qed.

Lemma chunking_metadata (txt : text) (meta : dict) (i : nat)
      (c : DocumentChunk) :
  nth_error (sentence_aware_chunking doc_processor txt meta) i = Some c ->
  metadata c = dict_update [(lit "chunk_id", VInt (Z.of_nat i))] meta.
Proof.
  unfold sentence_aware_chunking.
  pose proof (@chunking_loop_metadata doc_processor meta
                (kept_sentences txt) [] [] 0) as H.
  destruct (chunking_loop doc_processor meta (kept_sentences txt) [] [] 0)
    as [[chunks current] n]. cbn [fst] in H.
  assert (Hinv : forall i c, nth_error chunks i = Some c ->
                   metadata c
                   = dict_update [(lit "chunk_id", VInt (Z.of_nat i))] meta).
  { apply H. intros [|j] c' Hj; discriminate. }
  destruct current as [|s current]; [apply Hinv|].
  intros Hi.
  destruct (Nat.lt_ge_cases i (length chunks)) as [Hlt|Hge].
  - rewrite nth_error_app1 in Hi by assumption. apply Hinv. exact Hi.
  - rewrite nth_error_app2 in Hi by assumption.
    destruct (i - length chunks) as [|j] eqn:Ej; cbn in Hi.
    + inversion Hi; subst c. cbn [close_chunk metadata].
      replace (length chunks) with i by lia. reflexivity.
    + destruct j; discriminate.
Qed.

(** X3: the metadata of the chunk at position [i] is the caller's
    metadata with [chunk_id] set to [i]: a key of the caller's metadata
    keeps its value, [chunk_id] included, so the position is the
    [chunk_id] only when the caller's metadata has no [chunk_id] of its
    own; any other key is absent. *)
Theorem chunk_metadata_is_callers_plus_position
        (txt : text) (meta : dict) (i : nat) (c : DocumentChunk) :
  NoDup (map fst meta) ->
  nth_error (sentence_aware_chunking doc_processor txt meta) i = Some c ->
  (forall k v, dict_get meta k = Some v -> dict_get (metadata c) k = Some v)
  /\
  (dict_get meta (lit "chunk_id") = None ->
   chunk_id c = Some (VInt (Z.of_nat i))) /\
  (forall k, dict_get meta k = None -> k <> lit "chunk_id" ->
             dict_get (metadata c) k = None).
Proof.
  intros Hnd Hi. apply chunking_metadata in Hi.
  unfold chunk_id. rewrite Hi.
  repeat split.
  - intros k v Hk. rewrite dict_get_update_unique by assumption.
    rewrite Hk. reflexivity.
  - intros Hk. rewrite dict_get_update_unique by assumption.
    rewrite Hk. reflexivity.
  - intros k Hk Hne. rewrite dict_get_update_unique by assumption.
    rewrite Hk. cbn [dict_get].
    destruct (text_eqb k (lit "chunk_id")) eqn:E; [|reflexivity].
    apply text_eqb_eq in E. contradiction.
Qed.

(** ** Empty chunks and the number of chunks *)

Lemma grouping_loop_nonempty (self : DocumentProcessor)
      (sentences : list text) :
  forall groups current n,
    current <> [] ->
    exists more,
      fst (fst (grouping_loop self sentences groups current n))
      = groups ++ more /\
      Forall (fun g => g <> []) more /\
      snd (fst (grouping_loop self sentences groups current n)) <> [].
Proof.
  induction sentences as [|s rest IH]; intros groups current n Hc;
    cbn [grouping_loop].
  - exists []. cbn. rewrite app_nil_r. auto.
  - destruct (n + length (Py.split s) <=? chunk_size self).
    + apply IH. destruct current; discriminate.
    + destruct (IH (groups ++ [current]) [s] (length (Py.split s)))
        as (more & E & Hmore & Hcur); [discriminate|].
      exists (current :: more). rewrite E, <- app_assoc.
      repeat split; try assumption. constructor; assumption.
Qed.

(** The groups of a text: none when no sentence is kept; otherwise
    non-empty groups, after one empty group when the first kept sentence
    does not fit the budget. *)
Lemma sentence_groups_shape (self : DocumentProcessor) (txt : text) :
  match kept_sentences txt with
  | [] => sentence_groups self txt = []
  | s :: _ =>
      exists gs,
        gs <> [] /\ Forall (fun g => g <> []) gs /\
        sentence_groups self txt
        = if word_count s <=? chunk_size self then gs else [] :: gs
  end.
Proof.
  unfold sentence_groups.
  destruct (kept_sentences txt) as [|s rest]; [reflexivity|].
  cbn [grouping_loop app Nat.add]. fold (word_count s).
  destruct (word_count s <=? chunk_size self).
  - destruct (@grouping_loop_nonempty self rest [] [s] (word_count s))
      as (more & E & Hmore & Hcur); [discriminate|].
    destruct (grouping_loop self rest [] [s] (word_count s))
      as [[gs cur] n]. cbn [fst snd app] in *. subst gs.
    destruct cur as [|x cur]; [congruence|].
    exists (more ++ [x :: cur]). repeat split.
    + destruct more; discriminate.
    + apply Forall_app. split; [assumption|].
      constructor; [discriminate|constructor].
  - destruct (@grouping_loop_nonempty self rest [[]] [s] (word_count s))
      as (more & E & Hmore & Hcur); [discriminate|].
    destruct (grouping_loop self rest [[]] [s] (word_count s))
      as [[gs cur] n]. cbn [fst snd app] in *. subst gs.
    destruct cur as [|x cur]; [congruence|].
    exists (more ++ [x :: cur]). repeat split.
    + destruct more; discriminate.
    + apply Forall_app. split; [assumption|].
      constructor; [discriminate|constructor].
Qed.

Lemma kept_sentence_has_word (txt s : text) :
  In s (kept_sentences txt) -> 1 <= word_count s.
Proof.
  intros H. apply kept_sentences_In in H.
  destruct H as (seg & _ & -> & Hlen).
  apply strip_has_word. destruct (Py.strip seg); [cbn in Hlen; lia|].
  discriminate.
Qed.

Lemma group_has_word (txt : text) (g : list text) :
  In g (sentence_groups doc_processor txt) -> g <> [] ->
  1 <= word_count (Py.join [Py.space] g).
Proof.
  intros Hg Hne. rewrite word_count_join.
  destruct g as [|s g]; [congruence|].
  assert (Hs : In s (kept_sentences txt)).
  { destruct (sentence_groups_spec doc_processor txt) as [_ <-].
    apply in_concat. exists (s :: g). split; [assumption|left; reflexivity]. }
  apply kept_sentence_has_word in Hs.
  unfold words_total. cbn [map list_sum fold_right]. lia.
Qed.

Lemma nonempty_groups_count (gs : list (list text)) :
  Forall (fun g => g <> []) gs -> length gs <= length (concat gs).
Proof.
  induction 1 as [|g gs Hg _ IH]; [reflexivity|].
  cbn [concat length]. rewrite length_app.
  destruct g; [congruence|]. cbn. lia.
Qed.

(** X4: only the first chunk can have an empty content, and it has
    exactly when the first kept sentence has more than 256 words; every
    later chunk holds at least one word, and there is at most one chunk
    more than there are kept sentences. *)
Theorem only_the_first_chunk_can_be_empty (txt : text) (meta : dict) :
  let chunks := sentence_aware_chunking doc_processor txt meta in
  (forall i c, nth_error chunks (S i) = Some c ->
               1 <= word_count (content c)) /\
  (forall c tail,
      chunks = c :: tail ->
      (content c = [] <->
       exists s rest, kept_sentences txt = s :: rest /\
                      256 < word_count s)) /\
  length chunks <= S (length (kept_sentences txt)).
Proof.
  intros chunks.
  pose proof (chunking_contents doc_processor txt meta) as Hmap.
  fold chunks in Hmap.
  pose proof (sentence_groups_shape doc_processor txt) as Hshape.
  destruct (sentence_groups_spec doc_processor txt) as [_ Hcat].
  assert (Hword : forall g, In g (sentence_groups doc_processor txt) ->
                            g <> [] ->
                            1 <= word_count (Py.join [Py.space] g))
    by (intros; apply (group_has_word txt); assumption).
  assert (Hlen : length chunks
                 = length (sentence_groups doc_processor txt)).
  { rewrite <- (length_map content), Hmap, length_map. reflexivity. }
  assert (Hin : forall i c, nth_error chunks i = Some c ->
                 exists g, nth_error (sentence_groups doc_processor txt) i
                           = Some g /\
                           content c = Py.join [Py.space] g).
  { intros i c Hi.
    assert (H : nth_error (map content chunks) i = Some (content c))
      by (rewrite nth_error_map, Hi; reflexivity).
    rewrite Hmap, nth_error_map in H.
    destruct (nth_error (sentence_groups doc_processor txt) i) as [g|];
      [|discriminate].
    exists g. split; [reflexivity|]. inversion H. reflexivity. }
  clearbody chunks. clear Hmap.
  destruct (kept_sentences txt) as [|s rest] eqn:Ek.
  - rewrite Hshape in Hlen.
    destruct chunks as [|c0 chunks0]; [|discriminate].
    split; [intros [|i] c Hi; discriminate|].
    split; [intros c tail E; discriminate|cbn; lia].
  - destruct Hshape as (gs & Hne & Hgs & Egroups).
    cbn [chunk_size doc_processor] in Egroups.
    rewrite Forall_forall in Hgs.
    pose proof (nonempty_groups_count (proj2 (Forall_forall _ gs) Hgs))
      as Hcount.
    destruct (Nat.leb_spec (word_count s) 256) as [Hfit|Hover];
      rewrite Egroups in Hcat, Hword, Hlen, Hin.
    + split; [|split].
      * intros i c Hi. destruct (Hin _ _ Hi) as (g & Hg & ->).
        apply nth_error_In in Hg. apply Hword; auto.
      * intros c tail Ec. split.
        -- intros E. exfalso.
           destruct (Hin 0 c) as (g & Hg & Eg); [rewrite Ec; reflexivity|].
           apply nth_error_In in Hg.
           pose proof (Hword g Hg (Hgs g Hg)) as Hw.
           rewrite <- Eg, E in Hw. cbn in Hw. lia.
        -- intros (s' & rest' & E & Hlong). inversion E; subst. lia.
      * rewrite Hlen, <- Hcat. lia.
    + split; [|split].
      * intros i c Hi. destruct (Hin _ _ Hi) as (g & Hg & ->).
        cbn [nth_error] in Hg. apply nth_error_In in Hg.
        apply Hword; [right; assumption|auto].
      * intros c tail Ec. split.
        -- intros _. exists s, rest. split; [reflexivity|lia].
        -- intros _. destruct (Hin 0 c) as (g & Hg & Eg);
             [rewrite Ec; reflexivity|].
           cbn in Hg. inversion Hg; subst g. exact Eg.
      * rewrite Hlen, <- Hcat. cbn [concat length app]. lia.
Qed.

Lemma lstrip_length (s : text) : length (Py.lstrip s) <= length s.
Proof.
  destruct (lstrip_decompose s) as (sp & E & _).
  rewrite E at 2. rewrite length_app. lia.
Qed.

Lemma strip_length (s : text) : length (Py.strip s) <= length s.
Proof.
  unfold Py.strip, Py.rstrip. rewrite length_rev.
  etransitivity; [apply lstrip_length|].
  rewrite length_rev. apply lstrip_length.
Qed.

Lemma sentence_split_go_lengths (s : text) :
  forall after_mark in_sep cur,
    Forall (fun p => length p <= length cur + length s)
           (Py.sentence_split_go after_mark in_sep cur s).
Proof.
  induction s as [|c s IH]; intros after_mark in_sep cur;
    cbn [Py.sentence_split_go].
  - constructor; [rewrite length_rev; cbn; lia|constructor].
  - assert (Hweak : forall am sep cur',
               length cur' <= S (length cur) ->
               Forall (fun p => length p <= length cur + length (c :: s))
                      (Py.sentence_split_go am sep cur' s)).
    { intros am sep cur' Hc. eapply Forall_impl; [|apply IH].
      cbn. intros p Hp. lia. }
    destruct (Py.is_space c).
    + destruct in_sep; [apply Hweak; lia|].
      destruct after_mark; [|apply Hweak; cbn; lia].
      constructor; [rewrite length_rev; cbn; lia|].
      apply Hweak. cbn. lia.
    + apply Hweak. cbn. lia.
Qed.

Lemma filter_none {A} (f : A -> bool) (l : list A) :
  (forall x, In x l -> f x = false) -> filter f l = [].
Proof.
  induction l as [|x l IH]; intros H; [reflexivity|].
  cbn [filter]. rewrite (H x (or_introl eq_refl)).
  apply IH. intros y Hy. apply H. right. exact Hy.
Qed.

Lemma no_chunk_iff_no_kept_sentence_aux (txt : text) (meta : dict) :
  sentence_aware_chunking doc_processor txt meta = [] <->
  kept_sentences txt = [].
Proof.
  pose proof (chunking_contents doc_processor txt meta) as Hmap.
  pose proof (sentence_groups_shape doc_processor txt) as Hshape.
  destruct (kept_sentences txt) as [|s rest].
  - rewrite Hshape in Hmap.
    destruct (sentence_aware_chunking doc_processor txt meta);
      [tauto|discriminate].
  - destruct Hshape as (gs & Hne & _ & E). rewrite E in Hmap.
    split; [|discriminate].
    intros Hnil. rewrite Hnil in Hmap.
    destruct (word_count s <=? chunk_size doc_processor);
      destruct gs; try congruence; discriminate.
Qed.

(** X5: no chunk is produced exactly when no sentence is kept; in
    particular a text of at most 10 characters gives no chunk. *)
Theorem no_chunk_iff_no_kept_sentence (txt : text) (meta : dict) :
  (sentence_aware_chunking doc_processor txt meta = [] <->
   kept_sentences txt = []) /\
  (length txt <= 10 -> sentence_aware_chunking doc_processor txt meta = []).
Proof.
  pose proof (no_chunk_iff_no_kept_sentence_aux txt meta) as Hiff.
  split; [exact Hiff|].
  intros Hshort. apply Hiff. unfold kept_sentences.
  rewrite filter_none; [reflexivity|].
  intros p Hp.
  pose proof (sentence_split_go_lengths (Py.replace_newlines txt)
                                        false false []) as Hl.
  rewrite Forall_forall in Hl. specialize (Hl p Hp).
  unfold Py.replace_newlines in Hl. rewrite length_map in Hl. cbn in Hl.
  pose proof (strip_length p).
  apply Nat.ltb_ge. lia.
Qed.

(** ** Indexing replaces, retrieval reads *)

Section Replacement.

Context {cap : Capabilities}.

(** On a non-empty chunk sequence the outcome of [embed_and_index] and
    the index and store it leaves are the same from every state. *)
Lemma embed_and_index_outcome (chunks : list DocumentChunk)
      (batch_size : nat) :
  chunks <> [] ->
  exists r rows entries,
    forall w,
      embed_and_index chunks batch_size w
      = (r, with_index rows entries (loaded w)).
Proof.
  intros Hc.
  destruct (Nat.eq_dec batch_size 0) as [->|Hb].
  - destruct chunks as [|c chunks]; [congruence|].
    exists (Raise (Exn (lit "range() arg 3 must not be zero"))), [], [].
    intros w. reflexivity.
  - destruct (for_each_batches_cases chunks batch_size
                (Py.range0 (length chunks) batch_size))
      as [[rowss H]|(before & i & after & rowss & e & Hs & H & He)].
    + exists (Ok tt), (concat rowss),
        (map store_entry_of
             (concat (map (fun i => Py.slice chunks i (i + batch_size))
                          (Py.range0 (length chunks) batch_size)))).
      intros w.
      rewrite embed_and_index_unfold by (assumption || lia).
      rewrite for_each_batches_ok with (rowss := rowss) by assumption.
      reflexivity.
    + exists (Raise e), (concat rowss),
        (map store_entry_of
             (concat (map (fun i => Py.slice chunks i (i + batch_size))
                          before))).
      intros w.
      rewrite embed_and_index_unfold by (assumption || lia).
      rewrite Hs.
      rewrite for_each_batches_raise with (rowss := rowss) (e := e)
        by assumption.
      reflexivity.
Qed.

(** X6: a call of [embed_and_index] on a non-empty chunk sequence is a
    full replace: whether it returns or raises, and the index and the
    document store it leaves, do not depend on what the index and the
    store held before. *)
Theorem embed_and_index_replaces_prior_content
        (chunks : list DocumentChunk) (batch_size : nat) (w1 w2 : World) :
  chunks <> [] ->
  fst (embed_and_index chunks batch_size w1)
  = fst (embed_and_index chunks batch_size w2) /\
  faiss_index (snd (embed_and_index chunks batch_size w1))
  = faiss_index (snd (embed_and_index chunks batch_size w2)) /\
  document_store (snd (embed_and_index chunks batch_size w1))
  = document_store (snd (embed_and_index chunks batch_size w2)).
Proof.
  intros Hc.
  destruct (embed_and_index_outcome batch_size Hc)
    as (r & rows & entries & H).
  rewrite !H. repeat split; reflexivity.
Qed.

Lemma search_encode_raise (query : text) (top_k : nat) (w : World)
      (e : exn) :
  0 < ntotal w ->
  encode [query] = Raise e ->
  search query top_k w = (Raise e, loaded w).
Proof.
  intros Hn He.
  unfold search, bind at 1, get_world.
  destruct (Nat.eqb_spec (ntotal w) 0) as [H0|_]; [lia|].
  unfold bind at 1. cbn [get_embedding_model modify].
  unfold bind at 1, model_encode, lift_result. rewrite He.
  reflexivity.
Qed.

Lemma search_no_row (query : text) (top_k : nat) (w : World) :
  0 < ntotal w ->
  encode [query] = Ok [] ->
  exists e, search query top_k w = (Raise e, loaded w).
Proof.
  intros Hn He.
  unfold search, bind at 1, get_world.
  destruct (Nat.eqb_spec (ntotal w) 0) as [H0|_]; [lia|].
  unfold bind at 1. cbn [get_embedding_model modify].
  unfold bind at 1, model_encode, lift_result. rewrite He.
  unfold faiss_search.
  destruct (Nat.min top_k (ntotal w)); eexists; reflexivity.
Qed.

Lemma search_zero_top_k (query : text) (w : World) (rows : list Vec) :
  0 < ntotal w ->
  encode [query] = Ok rows ->
  exists e, search query 0 w = (Raise e, loaded w).
Proof.
  intros Hn He.
  unfold search, bind at 1, get_world.
  destruct (Nat.eqb_spec (ntotal w) 0) as [H0|_]; [lia|].
  unfold bind at 1. cbn [get_embedding_model modify].
  unfold bind at 1, model_encode, lift_result. rewrite He.
  eexists. reflexivity.
Qed.

Lemma entry_at_In (store : list StoreEntry) (idx : Z) :
  (0 <= idx < Z.of_nat (length store))%Z ->
  In (entry_at store idx) store.
Proof. intros H. unfold entry_at. apply nth_In. lia. Qed.

(** The matches of a [search] that returns are read from the store. *)
Lemma search_matches_from_store (query : text) (top_k : nat)
      (w w2 : World) (ms : list ClauseMatch) :
  ntotal w <= length (document_store w) ->
  search query top_k w = (Ok ms, w2) ->
  Forall (fun m => exists d, In d (document_store w) /\
                             match_content m = entry_content d) ms.
Proof.
  intros Hs Hrun.
  destruct (Nat.eq_dec (ntotal w) 0) as [H0|Hn].
  - rewrite search_empty in Hrun by assumption.
    inversion Hrun. constructor.
  - destruct (encode [query]) as [[|qv more]|e] eqn:He.
    + destruct (@search_no_row query top_k w) as [e E];
        [lia|assumption|]. rewrite E in Hrun. discriminate.
    + destruct top_k as [|k].
      * destruct (@search_zero_top_k query w (qv :: more)) as [e E];
          [lia|assumption|]. rewrite E in Hrun. discriminate.
      * destruct (@search_ok _ query (S k) w qv more) as [E _];
          try assumption; try lia.
        rewrite E in Hrun. inversion Hrun; subst ms.
        destruct (@IndexFlatL2_search_row_spec _ (faiss_index w) qv
                    (Nat.min (S k) (ntotal w))) as (_ & _ & Hlabels);
          [unfold ntotal; lia|].
        apply Forall_forall. intros m Hm. apply in_map_iff in Hm.
        destruct Hm as (p & <- & Hp).
        rewrite Forall_forall in Hlabels. specialize (Hlabels p Hp).
        exists (entry_at (document_store w) (snd p)).
        split; [|reflexivity].
        apply entry_at_In. unfold ntotal in Hs. cbn beta in Hlabels. lia.
    + rewrite search_encode_raise with (e := e) in Hrun
        by (assumption || lia).
      discriminate.
Qed.

End Replacement.

Section FreshIndex.

Context {cap : Capabilities}.

Hypothesis encode_rows :
  forall texts rows, encode texts = Ok rows -> length rows = length texts.

Lemma embed_and_index_returns_aligned (chunks : list DocumentChunk)
      (batch_size : nat) (w w' : World) :
  chunks <> [] ->
  embed_and_index chunks batch_size w = (Ok tt, w') ->
  ntotal w' = length chunks /\
  document_store w' = map store_entry_of chunks.
Proof.
  intros Hc E.
  pose proof (@embed_and_index_completed _ chunks batch_size w w' Hc E)
    as Hs.
  split; [|exact Hs].
  destruct (Nat.eq_dec batch_size 0) as [->|Hb].
  - destruct (embed_and_index_zero_batch w Hc) as [e E'].
    rewrite E' in E. discriminate.
  - rewrite embed_and_index_unfold in E by (assumption || lia).
    destruct (for_each_batches_cases chunks batch_size
                (Py.range0 (length chunks) batch_size))
      as [[rowss H]|(before & i & after & rowss & e & Hb' & H & He)].
    + rewrite for_each_batches_ok with (rowss := rowss) in E by assumption.
      inversion E; subst w'.
      pose proof (batches_aligned encode_rows H) as Ha.
      apply Forall2_length in Ha.
      unfold ntotal. cbn [with_index faiss_index app].
      rewrite Ha, length_map.
      rewrite range0_starts, concat_slices.
      rewrite firstn_all2 by (apply batches_cover; lia).
      reflexivity.
    + rewrite Hb' in E.
      rewrite for_each_batches_raise with (rowss := rowss) (e := e) in E
        by assumption.
      discriminate.
Qed.

(** X7: once [embed_and_index] has returned on a non-empty chunk
    sequence, the index holds one row per chunk and a [search] that
    returns, for any query and any [top_k], in that state or a later one
    with the same index, gives only contents of those chunks: nothing of
    what was indexed before can be retrieved. *)
Theorem search_returns_only_indexed_chunks
        (chunks : list DocumentChunk) (batch_size : nat) (w w' : World)
        (query : text) (top_k : nat) (w1 w2 : World)
        (ms : list ClauseMatch) :
  chunks <> [] ->
  embed_and_index chunks batch_size w = (Ok tt, w') ->
  same_index w' w1 ->
  search query top_k w1 = (Ok ms, w2) ->
  ntotal w' = length chunks /\
  length ms <= length chunks /\
  Forall (fun m => In (match_content m) (map content chunks)) ms.
Proof.
  intros Hc E [Hi Hd] Hrun.
  destruct (@embed_and_index_returns_aligned chunks batch_size w w' Hc E)
    as [Hn Hs].
  assert (Hcover : ntotal w1 <= length (document_store w1)).
  { unfold ntotal in *. rewrite Hi, Hd, Hn, Hs, length_map. lia. }
  split; [exact Hn|]. split.
  - destruct (Nat.eq_dec (ntotal w1) 0) as [H0|Hpos].
    + rewrite search_empty in Hrun by assumption.
      inversion Hrun. cbn. lia.
    + destruct (encode [query]) as [[|qv more]|e] eqn:He.
      * destruct (@search_no_row _ query top_k w1) as [e E'];
          [lia|assumption|]. rewrite E' in Hrun. discriminate.
      * destruct top_k as [|k].
        -- destruct (@search_zero_top_k _ query w1 (qv :: more))
             as [e E']; [lia|assumption|].
           rewrite E' in Hrun. discriminate.
        -- destruct (@search_ok _ query (S k) w1 qv more) as [E' _];
             try assumption; try lia.
           rewrite E' in Hrun.
           assert (Ems : ms = map (match_of (document_store w1))
                                  (IndexFlatL2_search_row
                                     (faiss_index w1) qv
                                     (Nat.min (S k) (ntotal w1))))
             by congruence.
           subst ms.
           destruct (@IndexFlatL2_search_row_spec _ (faiss_index w1) qv
                       (Nat.min (S k) (ntotal w1))) as (Hlen & _ & _);
             [unfold ntotal; lia|].
           rewrite length_map, Hlen.
           unfold ntotal in *. rewrite Hi, Hn. lia.
      * rewrite search_encode_raise with (e := e) in Hrun
          by (assumption || lia).
        discriminate.
  - pose proof (@search_matches_from_store _ query top_k w1 w2 ms
                  Hcover Hrun) as Hfrom.
    eapply Forall_impl; [|exact Hfrom].
    intros m (d & Hin & ->). rewrite Hd, Hs in Hin.
    apply in_map_iff in Hin. destruct Hin as (c & <- & Hc').
    cbn [store_entry_of entry_content]. apply in_map. exact Hc'.
Qed.

End FreshIndex.

(** ** The prompt and the answer line *)

Lemma starts_with_app (p s : text) : Py.starts_with p (p ++ s) = true.
Proof.
  induction p as [|c p IH]; [reflexivity|].
  cbn. rewrite IH, Ascii.eqb_refl. reflexivity.
Qed.

Lemma starts_with_app_l (p a b : text) :
  Py.starts_with p a = true -> Py.starts_with p (a ++ b) = true.
Proof.
  revert a; induction p as [|c p IH]; intros a H; [reflexivity|].
  destruct a as [|x a]; [discriminate|]. cbn in *.
  apply andb_true_iff in H. destruct H as [H1 H2].
  rewrite H1, (IH _ H2). reflexivity.
Qed.

Lemma contains_here (p s : text) : Py.contains p (p ++ s) = true.
Proof.
  destruct (p ++ s) eqn:E; cbn; rewrite <- E, starts_with_app; reflexivity.
Qed.

Lemma contains_skip (p a s : text) :
  Py.contains p s = true -> Py.contains p (a ++ s) = true.
Proof.
  intros H. induction a as [|c a IH]; [exact H|].
  cbn [app Py.contains]. rewrite IH. apply orb_true_r.
Qed.

Lemma contains_left (p a b : text) :
  Py.contains p a = true -> Py.contains p (a ++ b) = true.
Proof.
  induction a as [|c a IH]; intros H.
  - cbn in H. rewrite orb_false_r in H.
    destruct p; [|discriminate]. destruct b; reflexivity.
  - cbn [app Py.contains] in *.
    apply orb_true_iff in H. destruct H as [H|H].
    + change (c :: a ++ b) with ((c :: a) ++ b).
      rewrite (@starts_with_app_l p (c :: a) b H). reflexivity.
    + rewrite (IH H). apply orb_true_r.
Qed.

Lemma contains_join (sep p : text) (parts : list text) :
  In p parts -> Py.contains p (Py.join sep parts) = true.
Proof.
  induction parts as [|q [|q' parts] IH]; intros H.
  - contradiction.
  - destruct H as [->|[]]. cbn [Py.join].
    rewrite <- (app_nil_r p) at 2. apply contains_here.
  - change (Py.join sep (q :: q' :: parts))
      with (q ++ sep ++ Py.join sep (q' :: parts)).
    destruct H as [->|H].
    + apply contains_here.
    + apply contains_skip, contains_skip, IH. exact H.
Qed.

(** X8: the prompt holds the question and the content of every retrieved
    passage. *)
Theorem prompt_holds_question_and_passages
        (query : text) (relevant_chunks : list ClauseMatch) :
  Py.contains query (create_high_accuracy_prompt query relevant_chunks)
  = true /\
  forall m, In m relevant_chunks ->
            Py.contains (match_content m)
                        (create_high_accuracy_prompt query relevant_chunks)
            = true.
Proof.
  unfold create_high_accuracy_prompt. split.
  - repeat first [apply contains_here | apply contains_skip].
  - intros m Hm.
    do 6 apply contains_skip. apply contains_left.
    apply contains_join. apply in_map. exact Hm.
Qed.

Lemma join_chars (ws : list text) (c : ascii) :
  In c (Py.join [Py.space] ws) ->
  c = Py.space \/ exists w, In w ws /\ In c w.
Proof.
  induction ws as [|w [|w' ws] IH]; intros H.
  - contradiction.
  - right. exists w. split; [left; reflexivity|exact H].
  - change (Py.join [Py.space] (w :: w' :: ws))
      with (w ++ Py.space :: Py.join [Py.space] (w' :: ws)) in H.
    apply in_app_or in H. destruct H as [H|[H|H]].
    + right. exists w. split; [left; reflexivity|exact H].
    + left. symmetry. exact H.
    + destruct (IH H) as [E|(x & Hx & Hc)]; [left; exact E|].
      right. exists x. split; [right; exact Hx|exact Hc].
Qed.

Lemma split_is_words (s : text) : Forall is_word (Py.split s).
Proof. apply split_go_words. constructor. Qed.

Lemma single_line_words (t : text) :
  single_line t = Py.join [Py.space] (Py.split t).
Proof.
  unfold single_line. f_equal. unfold Py.split at 1.
  rewrite split_go_replace_newlines. apply split_strip.
Qed.

(** X9: the answer line is the words of the response joined by single
    spaces: it has the same words as the response, holds no newline and
    no whitespace but single spaces between words, and cleaning it again
    changes nothing. *)
Theorem single_line_is_words_joined (t : text) :
  single_line t = Py.join [Py.space] (Py.split t) /\
  Py.split (single_line t) = Py.split t /\
  single_line (single_line t) = single_line t /\
  (forall c, In c (single_line t) -> Py.is_space c = true ->
             c = Py.space) /\
  Py.strip (single_line t) = single_line t.
Proof.
  pose proof (single_line_words t) as Hw.
  assert (Hs : Py.split (single_line t) = Py.split t)
    by (rewrite Hw; apply split_join_words, split_is_words).
  split; [exact Hw|]. split; [exact Hs|]. split; [|split].
  - rewrite (single_line_words (single_line t)), Hs. symmetry. exact Hw.
  - intros c Hc Hsp. rewrite Hw in Hc.
    destruct (join_chars _ _ Hc) as [E|(w & Hin & Hcw)]; [exact E|].
    pose proof (split_is_words t) as Hall.
    rewrite Forall_forall in Hall. destruct (Hall w Hin) as [_ Hns].
    rewrite Forall_forall in Hns. rewrite (Hns c Hcw) in Hsp.
    discriminate.
  - assert (Hfix : forall s, (forall c t', s = c :: t' ->
                                           Py.is_space c = false) ->
                             Py.lstrip s = s).
    { intros [|c s] H; [reflexivity|].
      cbn. rewrite (H c s eq_refl). reflexivity. }
    assert (Hfirst : forall ws c t',
               Forall is_word ws ->
               Py.join [Py.space] ws = c :: t' -> Py.is_space c = false).
    { intros ws c t' Hws E.
      destruct Hws as [|w ws [Hne Hcs] _]; [discriminate|].
      destruct w as [|x w]; [congruence|].
      inversion Hcs; subst.
      destruct ws; cbn in E; inversion E; subst; assumption. }
    assert (Hlast : forall ws c t',
               Forall is_word ws ->
               rev (Py.join [Py.space] ws) = c :: t' ->
               Py.is_space c = false).
    { intros ws. induction ws as [|w [|w' ws] IH]; intros c t' Hws E.
      - discriminate.
      - inversion Hws as [|? ? [Hne Hcs] _]; subst.
        cbn [Py.join] in E.
        assert (Hin : In c w)
          by (apply in_rev; rewrite E; left; reflexivity).
        rewrite Forall_forall in Hcs. auto.
      - change (Py.join [Py.space] (w :: w' :: ws))
          with (w ++ Py.space :: Py.join [Py.space] (w' :: ws)) in E.
        rewrite rev_app_distr in E. cbn [rev] in E.
        inversion Hws as [|? ? _ Hws']; subst.
        destruct (rev (Py.join [Py.space] (w' :: ws))) as [|y r] eqn:Er.
        + exfalso. apply (f_equal (@length _)) in Er.
          rewrite length_rev in Er.
          inversion Hws' as [|? ? [Hne _] _]; subst.
          destruct w'; [congruence|].
          destruct ws; cbn in Er; try discriminate;
            try (rewrite length_app in Er; cbn in Er; lia).
        + cbn in E. inversion E; subst.
          eapply IH; [exact Hws'|reflexivity]. }
    rewrite Hw. unfold Py.strip, Py.rstrip.
    rewrite (Hfix (Py.join [Py.space] (Py.split t)))
      by (intros c t' E; eapply Hfirst; [apply split_is_words|exact E]).
    rewrite (Hfix (rev (Py.join [Py.space] (Py.split t))))
      by (intros c t' E; eapply Hlast; [apply split_is_words|exact E]).
    apply rev_involutive.
Qed.

(** ** Every run of the retry loop *)

Section RetryLoop.

Context {cap : Capabilities}.

Lemma outcome_cases (r : result text) :
  (exists t, r = Ok t) \/ is_rate_limit r \/ is_other_error r.
Proof.
  destruct r as [t|e]; [left; eauto|right].
  destruct (Py.contains (lit "429") (str_of_exn e)) eqn:E.
  - left. exists e. auto.
  - right. exists e. auto.
Qed.

Lemma backed_off_calls (a : nat) (w : World) :
  a < 3 -> llm_calls (backed_off a w) = llm_calls w + a.
Proof.
  intros Ha. destruct a as [|[|[|a]]]; cbn; lia.
Qed.

Lemma backed_off_sleeps (a : nat) (w : World) :
  a < 3 -> length (slept (after_call (backed_off a w)))
           = length (slept w) + a.
Proof.
  intros Ha. unfold slept.
  destruct a as [|[|[|a]]]; [| | |lia];
    cbn [backed_off after_call after_backoff log];
    rewrite ?flat_map_app; cbn [flat_map app]; rewrite ?length_app;
    cbn [length app]; lia.
Qed.

(** The run when the call of attempt [a] answers, the calls before it
    having been rate-limited. *)
Lemma generate_answer_succeeds (query : text)
      (relevant_chunks : list ClauseMatch) (w : World) (a : nat)
      (t : text) :
  let prompt := create_high_accuracy_prompt query relevant_chunks in
  relevant_chunks <> [] ->
  a < 3 ->
  (forall j, j < a ->
             is_rate_limit (generate_content (llm_calls w + j) prompt)) ->
  generate_content (llm_calls w + a) prompt = Ok t ->
  generate_answer query relevant_chunks w
  = (Ok (single_line t), after_call (backed_off a w)).
Proof.
  intros prompt Hne Ha Hbefore Hok.
  rewrite generate_answer_unfold by assumption.
  fold prompt. unfold bind at 1. cbn [for_return].
  assert (Hend : forall w' n,
             llm_calls w' = llm_calls w + a ->
             attempt_once prompt n w'
             = (Ok (Some (single_line t)), after_call w')).
  { intros w' n Hw'. apply attempt_once_success. rewrite Hw'. exact Hok. }
  assert (Hlim : forall j w', j < a -> llm_calls w' = llm_calls w + j ->
                   is_rate_limit (generate_content (llm_calls w') prompt)).
  { intros j w' Hj Hw'. eapply rate_limit_shift; [apply Hbefore|]; eauto. }
  destruct a as [|[|[|a]]]; [| | |lia]; cbn [backed_off].
  - unfold bind at 1.
    rewrite Hend by (cbn [after_backoff llm_calls]; lia).
    reflexivity.
  - unfold bind at 1.
    rewrite attempt_once_backoff by first [lia | apply (Hlim 0); lia].
    unfold bind at 1.
    rewrite Hend by (cbn [after_backoff llm_calls]; lia).
    reflexivity.
  - unfold bind at 1.
    rewrite attempt_once_backoff by first [lia | apply (Hlim 0); lia].
    unfold bind at 1.
    rewrite attempt_once_backoff
      by first [lia | apply (Hlim 1); cbn [after_backoff llm_calls]; lia].
    unfold bind at 1.
    rewrite Hend by (cbn [after_backoff llm_calls]; lia).
    reflexivity.
Qed.

(** The rate-limited calls that open a run: there are [a < 3] of them
    followed by a call that is not rate-limited, or there are three. *)
Lemma leading_rate_limits (prompt : text) (w : World) :
  exists a,
    a < 3 /\
    (forall j, j < a ->
               is_rate_limit (generate_content (llm_calls w + j) prompt)) /\
    ((exists t, generate_content (llm_calls w + a) prompt = Ok t) \/
     is_other_error (generate_content (llm_calls w + a) prompt) \/
     (a = 2 /\
      is_rate_limit (generate_content (llm_calls w + a) prompt))).
Proof.
  destruct (outcome_cases (generate_content (llm_calls w + 0) prompt))
    as [H0|[H0|H0]].
  - exists 0. repeat split; [lia|intros j Hj; lia|auto].
  - destruct (outcome_cases (generate_content (llm_calls w + 1) prompt))
      as [H1|[H1|H1]].
    + exists 1. repeat split; [lia| |auto].
      intros j Hj. replace j with 0 by lia. exact H0.
    + destruct (outcome_cases (generate_content (llm_calls w + 2) prompt))
        as [H2|[H2|H2]];
        exists 2; (repeat split; [lia| |auto]);
        intros j Hj; destruct j as [|[|j]]; try lia; assumption.
    + exists 1. repeat split; [lia| |auto].
      intros j Hj. replace j with 0 by lia. exact H0.
  - exists 0. repeat split; [lia|intros j Hj; lia|auto].
Qed.

(** X10: a call of the model that answers, after calls that were all
    rate-limited and before the third failure, gives the answer line of
    its text: the run makes exactly those calls and one sleep after each
    rate-limited one. *)
Theorem generate_answer_recovers_from_rate_limit
        (query : text) (relevant_chunks : list ClauseMatch) (w : World)
        (a : nat) (t : text) :
  relevant_chunks <> [] ->
  a < 3 ->
  (forall j, j < a ->
             is_rate_limit
               (generate_content
                  (llm_calls w + j)
                  (create_high_accuracy_prompt query relevant_chunks))) ->
  generate_content (llm_calls w + a)
                   (create_high_accuracy_prompt query relevant_chunks)
  = Ok t ->
  let run := generate_answer query relevant_chunks w in
  fst run = Ok (single_line t) /\
  llm_calls (snd run) = llm_calls w + a + 1 /\
  length (slept (snd run)) = length (slept w) + a /\
  same_index w (snd run).
Proof.
  intros Hne Ha Hbefore Hok run. unfold run.
  rewrite (@generate_answer_succeeds query relevant_chunks w a t)
    by assumption.
  cbn [fst snd].
  split; [reflexivity|]. split; [|split].
  - cbn [after_call llm_calls]. rewrite backed_off_calls by assumption. lia.
  - apply backed_off_sleeps. assumption.
  - destruct a as [|[|[|a]]]; [| | |lia]; split; reflexivity.
Qed.

(** X11: every run of [generate_answer] on a non-empty list of matches
    makes between one and three calls of the model and one sleep less
    than calls, and its answer is the error sentence or the answer line
    of the text of its last call; the sentence about exhausted retries is
    returned only if the model itself wrote it. *)
Theorem generate_answer_outcomes
        (query : text) (relevant_chunks : list ClauseMatch) (w : World) :
  relevant_chunks <> [] ->
  let prompt := create_high_accuracy_prompt query relevant_chunks in
  let run := generate_answer query relevant_chunks w in
  exists calls,
    1 <= calls <= 3 /\
    llm_calls (snd run) = llm_calls w + calls /\
    length (slept (snd run)) = length (slept w) + (calls - 1) /\
    (fst run = Ok ERROR_OCCURRED \/
     exists t,
       generate_content (llm_calls w + (calls - 1)) prompt = Ok t /\
       fst run = Ok (single_line t)).
Proof.
  intros Hne prompt run.
  destruct (leading_rate_limits prompt w) as (a & Ha & Hbefore & Hlast).
  exists (S a).
  replace (S a - 1) with a by lia.
  destruct Hlast as [[t Hok]|Hfail].
  - unfold run.
    rewrite (@generate_answer_succeeds query relevant_chunks w a t)
      by assumption.
    cbn [fst snd].
    split; [lia|]. split; [|split].
    + cbn [after_call llm_calls]. rewrite backed_off_calls by assumption.
      lia.
    + apply backed_off_sleeps. assumption.
    + right. exists t. split; [exact Hok|reflexivity].
  - unfold run.
    rewrite (@generate_answer_gives_up _ query relevant_chunks w a)
      by assumption.
    cbn [fst snd].
    split; [lia|]. split; [|split].
    + cbn [after_call llm_calls]. rewrite backed_off_calls by assumption.
      lia.
    + apply backed_off_sleeps. assumption.
    + left. reflexivity.
Qed.

Lemma generate_answer_calls_bound (query : text)
      (relevant_chunks : list ClauseMatch) (w : World) :
  llm_calls w <= llm_calls (snd (generate_answer query relevant_chunks w))
  <= llm_calls w + 3.
Proof.
  destruct relevant_chunks as [|m ms] eqn:E; [cbn; lia|].
  rewrite <- E.
  assert (Hne : relevant_chunks <> []) by (subst; discriminate).
  clear E.
  destruct (leading_rate_limits
              (create_high_accuracy_prompt query relevant_chunks) w)
    as (a & Ha & Hbefore & [[t Hok]|Hfail]).
  - rewrite (@generate_answer_succeeds query relevant_chunks w a t)
      by assumption.
    cbn [snd after_call llm_calls]. rewrite backed_off_calls by assumption.
    lia.
  - rewrite (@generate_answer_gives_up _ query relevant_chunks w a)
      by assumption.
    cbn [snd after_call llm_calls]. rewrite backed_off_calls by assumption.
    lia.
Qed.

End RetryLoop.

(** ** Answering over the index *)

Section Answering.

Context {cap : Capabilities}.

Lemma process_one_empty_index (query : text) (w : World) :
  ntotal w = 0 -> _process_one query w = (Ok NO_INFORMATION, w).
Proof.
  intros H. unfold _process_one, bind.
  rewrite search_empty by assumption. reflexivity.
Qed.

(** X12: while the index is empty every question gets the sentence that
    the document holds nothing relevant, in one answer per question; the
    generative model is not called, the embedding model is not loaded
    and nothing else of the state changes. *)
Theorem empty_index_answers_without_the_model
        (queries : list text) (w : World) :
  ntotal w = 0 ->
  process_all_queries queries w
  = (Ok (map (fun _ => NO_INFORMATION) queries), w).
Proof.
  intros H. induction queries as [|q rest IH]; [reflexivity|].
  rewrite process_all_queries_cons
    with (a := NO_INFORMATION) (w1 := w)
    by (apply process_one_empty_index; exact H).
  rewrite IH. reflexivity.
Qed.

Lemma search_world (query : text) (top_k : nat) (w : World) :
  snd (search query top_k w) = w \/ snd (search query top_k w) = loaded w.
Proof.
  destruct (Nat.eq_dec (ntotal w) 0) as [H0|Hn].
  - left. rewrite search_empty by assumption. reflexivity.
  - right. unfold search, bind at 1, get_world.
    destruct (Nat.eqb_spec (ntotal w) 0) as [?|_]; [contradiction|].
    unfold bind at 1. cbn [get_embedding_model modify].
    unfold bind at 1, model_encode, lift_result.
    destruct (encode [query]) as [rows|e]; [|reflexivity].
    unfold faiss_search.
    destruct (Nat.min top_k (ntotal w)) as [|k]; [reflexivity|].
    unfold bind, get_world, ret, lift_result.
    repeat match goal with
           | |- context [match ?x with _ => _ end] => destruct x
           end; reflexivity.
Qed.

Lemma process_one_calls_bound (query : text) (w : World) :
  llm_calls w <= llm_calls (snd (_process_one query w)) <= llm_calls w + 3.
Proof.
  unfold _process_one, bind.
  pose proof (search_world query 8 w) as Hw.
  destruct (search query 8 w) as [[ms|e] w1]; cbn [snd] in Hw |- *.
  - pose proof (generate_answer_calls_bound query ms w1) as Hb.
    destruct Hw as [->| ->]; exact Hb.
  - destruct Hw as [->| ->]; cbn; lia.
Qed.

Lemma process_loop_calls_bound (queries : list text) :
  forall answers w,
    llm_calls w <= llm_calls (snd (process_loop queries answers w))
    <= llm_calls w + 3 * length queries.
Proof.
  induction queries as [|q rest IH]; intros answers w; cbn [process_loop].
  - cbn. lia.
  - unfold bind.
    pose proof (process_one_calls_bound q w) as Hq.
    destruct (_process_one q w) as [[a|e] w1]; cbn [snd] in Hq |- *.
    + specialize (IH (answers ++ [a]) w1). cbn [length]. lia.
    + cbn [length]. lia.
Qed.

(** X13: answering a list of questions only reads the index and the
    document store, which are the same after it as before whether it
    returns or raises, and it calls the generative model at most three
    times per question. *)
Theorem queries_read_only_and_bounded (queries : list text) (w : World) :
  let w' := snd (process_all_queries queries w) in
  faiss_index w' = faiss_index w /\
  document_store w' = document_store w /\
  llm_calls w <= llm_calls w' <= llm_calls w + 3 * length queries.
Proof.
  intros w'.
  destruct (preserves_process_all_queries queries w) as [Hi Hd].
  split; [exact Hi|]. split; [exact Hd|].
  apply process_loop_calls_bound.
Qed.

Lemma process_all_queries_returns (queries : list text) :
  forall w,
    ntotal w <= length (document_store w) ->
    (forall q, In q queries -> retrievable w q) ->
    exists answers,
      fst (process_all_queries queries w) = Ok answers /\
      length answers = length queries.
Proof.
  induction queries as [|q rest IH]; intros w Hs Hq.
  - exists []. split; reflexivity.
  - destruct (process_one_returns Hs (Hq q (or_introl eq_refl)))
      as [a Ha].
    destruct (_process_one q w) as [r w1] eqn:E. cbn in Ha. subst r.
    assert (Hsame : same_index w w1).
    { pose proof (preserves_process_one q w) as H.
      rewrite E in H. exact H. }
    destruct (IH w1) as (answers & Hrun & Hlen).
    { destruct Hsame as [Hi Hd]. unfold ntotal. rewrite Hi, Hd. exact Hs. }
    { intros q' Hq'. eapply retrievable_same_index; [exact Hsame|].
      apply Hq. right. exact Hq'. }
    exists (a :: answers).
    rewrite process_all_queries_cons with (a := a) (w1 := w1) by exact E.
    destruct (process_all_queries rest w1) as [[rs|e] w2];
      cbn in Hrun; [|discriminate].
    inversion Hrun; subst rs.
    split; [reflexivity|cbn; congruence].
Qed.

(** X14: a text without a kept sentence does not reset the index: the
    pipeline runs the questions against whatever index the request
    before it left, and leaves that index in place. *)
Theorem pipeline_on_empty_text_keeps_stale_index
        (source txt : text) (questions : list text) (w : World) :
  kept_sentences txt = [] ->
  same_index w (snd (run_pipeline source txt questions w)) /\
  forall answers w',
    process_all_queries questions w = (Ok answers, w') ->
    run_pipeline source txt questions w = (Ok answers, w').
Proof.
  intros Hkept.
  assert (Hchunks : sentence_aware_chunking
                      doc_processor txt [(lit "source", VStr source)] = []).
  { unfold sentence_aware_chunking. rewrite Hkept. reflexivity. }
  assert (Hrun : run_pipeline source txt questions w
                 = try_except
                     (process_all_queries questions)
                     (fun e =>
                        raise (Exn (lit "500: An internal processing error occurred: "
                                    ++ str_of_exn e))) w).
  { unfold run_pipeline, try_except, bind. rewrite Hchunks. reflexivity. }
  split.
  - rewrite Hrun. apply preserves_try_except.
    + apply preserves_process_all_queries.
    + intros e. apply preserves_raise.
  - intros answers w' H. rewrite Hrun. unfold try_except. rewrite H.
    reflexivity.
Qed.

(** X15: with an encoder that is the map of a total function of the
    text, from a state the process can reach, the pipeline returns for
    every text, every list of questions and every behaviour of the
    generative model: one answer per question, and when the text has a
    kept sentence the document store then holds exactly its chunks. *)
Theorem pipeline_returns_one_answer_per_question
        (embed : text -> Vec) (source txt : text)
        (questions : list text) (w : World) :
  (forall texts, encode texts = Ok (map embed texts)) ->
  reachable w ->
  let chunks :=
    sentence_aware_chunking doc_processor txt
                            [(lit "source", VStr source)] in
  exists answers,
    fst (run_pipeline source txt questions w) = Ok answers /\
    length answers = length questions /\
    (kept_sentences txt <> [] ->
     document_store (snd (run_pipeline source txt questions w))
     = map store_entry_of chunks).
Proof.
  intros Hpure Hreach chunks.
  assert (Hrows : forall texts rows,
             encode texts = Ok rows -> length rows = length texts).
  { intros texts rows E. rewrite Hpure in E. inversion E.
    apply length_map. }
  assert (Hret : forall w1 q, retrievable w1 q).
  { intros w1 q. right. rewrite Hpure. cbn. eauto. }
  unfold run_pipeline, try_except, bind. fold chunks.
  destruct chunks as [|c0 chunks0] eqn:Ec.
  - rewrite embed_and_index_empty.
    pose proof (reachable_aligned Hrows Hreach) as Ha.
    apply Forall2_length in Ha.
    destruct (@process_all_queries_returns questions w)
      as (answers & Hrun & Hlen); [unfold ntotal; lia|auto|].
    destruct (process_all_queries questions w) as [[rs|e] w2];
      cbn in Hrun; [|discriminate].
    inversion Hrun; subst rs.
    exists answers. split; [reflexivity|]. split; [exact Hlen|].
    intros Hk. exfalso.
    assert (Hnil : sentence_aware_chunking
                     doc_processor txt [(lit "source", VStr source)] = [])
      by exact Ec.
    apply (proj1 (no_chunk_iff_no_kept_sentence_aux txt _)) in Hnil.
    contradiction.
  - rewrite <- Ec.
    assert (Hne : chunks <> []) by (rewrite Ec; discriminate).
    rewrite (pure_encoder_index embed w Hpure Hne
               (batch_size := default_batch_size))
      by (unfold default_batch_size; lia).
    set (w1 := with_index (map embed (map content chunks))
                          (map store_entry_of chunks) (loaded w)).
    destruct (@process_all_queries_returns questions w1)
      as (answers & Hrun & Hlen).
    { unfold ntotal, w1. cbn [with_index faiss_index document_store].
      rewrite !length_map. lia. }
    { auto. }
    pose proof (preserves_process_all_queries questions w1) as [_ Hd].
    destruct (process_all_queries questions w1) as [[rs|e] w2];
      cbn in Hrun; [|discriminate].
    inversion Hrun; subst rs.
    exists answers. split; [reflexivity|]. split; [exact Hlen|].
    intros _. cbn [snd] in Hd |- *. rewrite Hd. reflexivity.
Qed.

End Answering.

(** ** Download and extraction *)

Section ExtractionFacts.

Context {ext : Extractors}.

Lemma pdf_and_docx_suffixes_differ (s : text) :
  py_endswith s (lit ".pdf") = true ->
  py_endswith s (lit ".docx") = false.
Proof.
  unfold py_endswith. destruct (rev s) as [|c r]; [discriminate|].
  cbn [rev lit list_ascii_of_string app Py.starts_with].
  destruct (Ascii.eqb_spec "f"%char c) as [<-|Hne]; [|discriminate].
  reflexivity.
Qed.

(** X16: [get_file_type] answers [docx] exactly when the path of the
    URL, lowercased, ends with [.docx], and [pdf] in every other case;
    so [extract_text] on its answer never raises for an unsupported
    type: an exception it raises is a parser failure, wrapped. *)
Theorem file_type_is_always_supported (url content : text) :
  (get_file_type url = lit "docx" <->
   py_endswith (py_lower (url_path url)) (lit ".docx") = true) /\
  (get_file_type url = lit "pdf" \/ get_file_type url = lit "docx") /\
  (forall e,
      extract_text content (get_file_type url) = Raise e ->
      Py.starts_with (lit "Failed to extract text from ") (str_of_exn e)
      = true).
Proof.
  unfold get_file_type.
  destruct (py_endswith (py_lower (url_path url)) (lit ".pdf")) eqn:Epdf.
  - rewrite (pdf_and_docx_suffixes_differ _ Epdf).
    split; [split; discriminate|]. split; [left; reflexivity|].
    intros e. unfold extract_text.
    change (text_eqb (lit "pdf") (lit "pdf")) with true. cbn iota.
    unfold _extract_text_from_pdf.
    destruct (pdf_page_texts content); [discriminate|].
    intros H. inversion H. reflexivity.
  - destruct (py_endswith (py_lower (url_path url)) (lit ".docx")) eqn:Edocx.
    + split; [split; reflexivity|]. split; [right; reflexivity|].
      intros e. unfold extract_text.
      change (text_eqb (lit "docx") (lit "pdf")) with false.
      change (text_eqb (lit "docx") (lit "docx")) with true. cbn iota.
      unfold _extract_text_from_docx.
      destruct (docx_paragraph_texts content); [discriminate|].
      intros H. inversion H. reflexivity.
    + split; [split; discriminate|]. split; [left; reflexivity|].
      intros e. unfold extract_text.
      change (text_eqb (lit "pdf") (lit "pdf")) with true. cbn iota.
      unfold _extract_text_from_pdf.
      destruct (pdf_page_texts content); [discriminate|].
      intros H. inversion H. reflexivity.
Qed.

Lemma split_trailing_newline (s : text) :
  Py.split (s ++ [Py.newline]) = Py.split s.
Proof.
  unfold Py.split. apply split_go_trailing_spaces.
  constructor; [reflexivity|constructor].
Qed.

Lemma pdf_pages_words (pages : list text) :
  forall acc,
    acc = [] \/ (exists a, acc = a ++ [Py.newline]) ->
    Py.split (fold_left add_page pages acc)
    = Py.split acc ++ words_of pages.
Proof.
  unfold words_of.
  induction pages as [|p pages IH]; intros acc Hacc; cbn [fold_left].
  - cbn. rewrite app_nil_r. reflexivity.
  - destruct p as [|c p]; cbn [add_page map concat].
    + rewrite IH by assumption. reflexivity.
    + assert (Hstep : Py.split (acc ++ (c :: p) ++ [Py.newline])
                      = Py.split acc ++ Py.split (c :: p)).
      { destruct Hacc as [->|[a ->]].
        - cbn [app]. apply (split_trailing_newline (c :: p)).
        - rewrite <- app_assoc. cbn [app].
          change (a ++ Py.newline :: c :: p ++ [Py.newline])
            with (a ++ Py.newline :: ((c :: p) ++ [Py.newline])).
          unfold Py.split.
          rewrite split_go_sep_app by reflexivity.
          rewrite (@split_go_trailing_spaces [Py.newline] a [])
            by (constructor; [reflexivity|constructor]).
          f_equal. apply (split_trailing_newline (c :: p)). }
      rewrite IH.
      * rewrite Hstep, <- app_assoc. reflexivity.
      * right. exists (acc ++ c :: p). rewrite <- app_assoc. reflexivity.
Qed.

Lemma split_join_newline (parts : list text) :
  Py.split (Py.join [Py.newline] parts) = words_of parts.
Proof.
  unfold words_of.
  induction parts as [|p [|q parts] IH].
  - reflexivity.
  - cbn. rewrite app_nil_r. reflexivity.
  - change (Py.join [Py.newline] (p :: q :: parts))
      with (p ++ Py.newline :: Py.join [Py.newline] (q :: parts)).
    unfold Py.split in *.
    rewrite split_go_sep_app by reflexivity. rewrite IH. reflexivity.
Qed.

Lemma words_of_nonblank (paragraphs : list text) :
  words_of (filter (fun p => negb (is_empty (Py.strip p))) paragraphs)
  = words_of paragraphs.
Proof.
  unfold words_of.
  induction paragraphs as [|p ps IH]; [reflexivity|].
  cbn [filter map concat].
  destruct (Py.strip p) as [|c s] eqn:E; cbn [is_empty negb].
  - rewrite IH. rewrite <- (split_strip p), E. reflexivity.
  - cbn [map concat]. rewrite IH. reflexivity.
Qed.

(** X17: text extraction loses no word: the words of the text taken from
    a PDF are the words of its pages in order (a page without text adds
    nothing, each other page ends a line), and the words of the text
    taken from a Word document are the words of its paragraphs in order
    (blank paragraphs are dropped). *)
Theorem extraction_keeps_every_word (content : text) :
  (forall pages,
      pdf_page_texts content = Ok pages ->
      exists txt,
        _extract_text_from_pdf content = Ok txt /\
        Py.split txt = words_of pages) /\
  (forall paragraphs,
      docx_paragraph_texts content = Ok paragraphs ->
      exists txt,
        _extract_text_from_docx content = Ok txt /\
        Py.split txt = words_of paragraphs).
Proof.
  split.
  - intros pages E. unfold _extract_text_from_pdf. rewrite E.
    eexists. split; [reflexivity|].
    rewrite pdf_pages_words by (left; reflexivity). reflexivity.
  - intros paragraphs E. unfold _extract_text_from_docx. rewrite E.
    eexists. split; [reflexivity|].
    rewrite split_join_newline. apply words_of_nonblank.
Qed.

End ExtractionFacts.

Section SubmissionFacts.

Context {cap : Capabilities} {ext : Extractors}.

(** X18: [run_submission] by stages.  A failed download or a failed
    extraction raises the internal error with the message of the
    failure and leaves the whole state as it was, the index of the
    request before it included; once the text is extracted the request
    is the chunk, index and answer pipeline on that text; and whatever
    it raises is an internal error. *)
Theorem run_submission_by_stages
        (documents : text) (questions : list text) (w : World) :
  (forall e,
      download_document documents = Raise e ->
      run_submission documents questions w
      = (Raise (Exn (lit "500: An internal processing error occurred: "
                     ++ str_of_exn e)), w)) /\
  (forall content e,
      download_document documents = Ok content ->
      extract_text content (get_file_type documents) = Raise e ->
      run_submission documents questions w
      = (Raise (Exn (lit "500: An internal processing error occurred: "
                     ++ str_of_exn e)), w)) /\
  (forall content txt,
      download_document documents = Ok content ->
      extract_text content (get_file_type documents) = Ok txt ->
      run_submission documents questions w
      = run_pipeline documents txt questions w) /\
  (forall e w',
      run_submission documents questions w = (Raise e, w') ->
      is_internal_error e).
Proof.
  split; [|split; [|split]].
  - intros e E. unfold run_submission, try_except, bind, lift_result.
    rewrite E. reflexivity.
  - intros content e E1 E2.
    unfold run_submission, try_except, bind, lift_result.
    rewrite E1, E2. reflexivity.
  - intros content txt E1 E2.
    unfold run_submission, run_pipeline, try_except, bind, lift_result.
    rewrite E1, E2. reflexivity.
  - intros e w'. unfold run_submission, try_except.
    match goal with
    | |- context [match ?c w with _ => _ end] => destruct (c w) as [[a|e0] w0]
    end.
    + discriminate.
    + unfold raise. intros H.
      assert (He : e = Exn (lit "500: An internal processing error occurred: "
                            ++ str_of_exn e0)) by congruence.
      subst e. unfold is_internal_error.
      cbn [str_of_exn]. apply starts_with_app.
Qed.

End SubmissionFacts.

(* ================================================================== *)
(** * Part V: the further properties on concrete runs                  *)
(* ================================================================== *)

(** X3 with a caller's metadata that has its own [chunk_id]: the chunk at
    position 0 carries the caller's 7, not its position. *)
Lemma callers_chunk_id_wins :
  exists c,
    nth_error (sentence_aware_chunking doc_processor warranty_text
                                       chunk_id_metadata) 0 = Some c /\
    dict_get (metadata c) (lit "chunk_id") = Some (VInt 7) /\
    dict_get (metadata c) (lit "source") = Some (VStr (lit "doc.pdf")).
Proof.
  eexists. split; [vm_compute; reflexivity|].
  match goal with
  | |- dict_get (metadata ?c) _ = _ /\ _ =>
      destruct (@chunk_metadata_is_callers_plus_position
                  warranty_text chunk_id_metadata 0 c) as (H & _ & _)
  end.
  - repeat constructor; cbn; intuition discriminate.
  - vm_compute. reflexivity.
  - split; apply H; reflexivity.
Defined.

(** X6 at [three_chunks]: from the state at import time and from the
    state the failed indexing of [nine_chunks] leaves. *)
Lemma three_chunks_replace_nine :
  let T := toy always_rate_limited in
  let w1 := initial_world (cap := T) in
  let w2 := snd (embed_and_index (cap := T) nine_chunks 8 initial_world) in
  three_chunks <> [] /\
  fst (embed_and_index three_chunks 8 w1)
  = fst (embed_and_index three_chunks 8 w2) /\
  faiss_index (snd (embed_and_index three_chunks 8 w1))
  = faiss_index (snd (embed_and_index three_chunks 8 w2)) /\
  document_store (snd (embed_and_index three_chunks 8 w1))
  = document_store (snd (embed_and_index three_chunks 8 w2)).
Proof.
  intros T w1 w2.
  assert (H : three_chunks <> []) by discriminate.
  split; [exact H|].
  exact (@embed_and_index_replaces_prior_content T three_chunks 8 w1 w2 H).
Defined.

(** X7 at [three_chunks], indexed over what [nine_chunks] left. *)
Lemma search_after_reindexing :
  let T := toy always_rate_limited in
  let w := snd (embed_and_index (cap := T) nine_chunks 8 initial_world) in
  let w' := snd (embed_and_index (cap := T) three_chunks 8 w) in
  let run := search (cap := T) (lit "abcd") 2 w' in
  exists ms,
    fst run = Ok ms /\
    ntotal w' = length three_chunks /\
    length ms <= length three_chunks /\
    Forall (fun m => In (match_content m) (map content three_chunks)) ms.
Proof.
  intros T w w' run.
  assert (Hrun : exists ms, run = (Ok ms, snd run))
    by (eexists; vm_compute; reflexivity).
  destruct Hrun as [ms Hrun].
  exists ms. split; [rewrite Hrun; reflexivity|].
  apply (@search_returns_only_indexed_chunks
           T toy_encode_rows three_chunks 8 w w' (lit "abcd") 2 w'
           (snd run) ms).
  - discriminate.
  - vm_compute. reflexivity.
  - split; reflexivity.
  - exact Hrun.
Defined.

(** X10 with a model that is rate-limited once: the second call answers. *)
Lemma limited_once_then_answer :
  let T := toy limited_once in
  let run := generate_answer (cap := T) (lit "How long?") one_match
                             initial_world in
  fst run = Ok (lit "It lasts 2 years.") /\
  llm_calls (snd run) = 2 /\
  length (slept (snd run)) = 1.
Proof.
  intros T run.
  destruct (@generate_answer_recovers_from_rate_limit
              T (lit "How long?") one_match initial_world 1
              (lit " It lasts  2 years."))
    as (H1 & H2 & H3 & _).
  - discriminate.
  - lia.
  - intros j Hj. replace j with 0 by lia.
    eexists. split; reflexivity.
  - reflexivity.
  - split; [exact H1|]. split; [exact H2|exact H3].
Defined.

(** X11 with the same model. *)
Lemma limited_once_outcome :
  let T := toy limited_once in
  let run := generate_answer (cap := T) (lit "How long?") one_match
                             initial_world in
  exists calls,
    1 <= calls <= 3 /\
    llm_calls (snd run) = calls /\
    length (slept (snd run)) = calls - 1.
Proof.
  intros T run.
  destruct (@generate_answer_outcomes
              T (lit "How long?") one_match initial_world)
    as (calls & Hc & H1 & H2 & _); [discriminate|].
  exists calls. split; [exact Hc|]. split; [exact H1|exact H2].
Defined.

(** X12 at import time: three questions, three times the fallback. *)
Lemma questions_before_any_indexing :
  let T := toy always_rate_limited in
  ntotal (initial_world (cap := T)) = 0 /\
  process_all_queries (cap := T) three_questions initial_world
  = (Ok [NO_INFORMATION; NO_INFORMATION; NO_INFORMATION], initial_world).
Proof.
  intros T. split; [reflexivity|].
  exact (@empty_index_answers_without_the_model
           T three_questions initial_world eq_refl).
Defined.

(** X14 at a text of 10 characters, after [three_chunks] were indexed:
    the three rows stay. *)
Lemma short_text_keeps_three_chunks :
  let T := toy answers_fine in
  let w := snd (embed_and_index (cap := T) three_chunks 8 initial_world) in
  kept_sentences ten_characters = [] /\
  same_index w (snd (run_pipeline (cap := T) (lit "doc.pdf") ten_characters
                                  three_questions w)) /\
  ntotal w = 3.
Proof.
  intros T w.
  assert (H : kept_sentences ten_characters = []) by reflexivity.
  split; [exact H|]. split; [|reflexivity].
  exact (proj1 (@pipeline_on_empty_text_keeps_stale_index
                  T (lit "doc.pdf") ten_characters three_questions w H)).
Defined.

(** X15 at [warranty_text] with the encoder that never raises. *)
Lemma warranty_pipeline_answers :
  let T := toy_pure second_call_fails in
  exists answers,
    fst (run_pipeline (cap := T) (lit "doc.pdf") warranty_text
                      three_questions initial_world) = Ok answers /\
    length answers = length three_questions.
Proof.
  intros T.
  destruct (@pipeline_returns_one_answer_per_question
              T toy_embed (lit "doc.pdf") warranty_text three_questions
              initial_world)
    as (answers & H1 & H2 & _).
  - intros texts. reflexivity.
  - apply reachable_initial.
  - exists answers. split; assumption.
Defined.
